(** * Rebound: a retry orchestration engine

    A shallow embedding of the TypeScript sources of the retry engine
    (retry.ts, retry/attempt-handler.ts, retry/pre-checks.ts,
    retry/helpers.ts, circuit-breaker.ts, rate-limit-tracker.ts,
    validation.ts, utils.ts, utils/metrics.ts, utils/headers.ts,
    parse-retry-after.ts, classifiers and policies), followed by the
    properties established about it.

    Modelling conventions.
    - A JavaScript [number] is an extended rational: a finite value in [Q],
      the two infinities, or NaN.  Rounding of doubles and the sign of zero
      are not represented.
    - Wall-clock time ([Date.now()]) is an integer number of milliseconds
      threaded through the run; it advances only at the suspension points
      of the engine (the operation itself and the two sleeps).
    - The caller-supplied operation, [Math.random] and the abort signal are
      oracles gathered in an environment record.
    - Callbacks ([onEvent], [onStateChange]) are observed through logs and
      are taken not to throw; classifier and policy are total functions. *)

From Stdlib Require Import ZArith QArith Qround Qminmax Qpower Bool List Lia Lqa.
From Stdlib Require Import Ascii String.
From Stdlib Require Import DecimalString.
Import ListNotations.

Set Implicit Arguments.

Local Open Scope Z_scope.

(** ** JavaScript numbers *)

Inductive number : Type :=
| Fin (q : Q)
| PosInf
| NegInf
| NaN.

Definition ofZ (z : Z) : number := Fin (inject_Z z).

Module Num.

(** [Number.isFinite] *)
Definition isFinite (n : number) : bool :=
  match n with Fin _ => true | _ => false end.

(** [Number.isInteger] *)
Definition isInteger (n : number) : bool :=
  match n with
  | Fin q => Qeq_bool q (inject_Z (Qfloor q))
  | _ => false
  end.

(** [a < b] *)
Definition lt (a b : number) : bool :=
  match a, b with
  | NaN, _ | _, NaN => false
  | Fin x, Fin y => negb (Qle_bool y x)
  | Fin _, PosInf => true
  | Fin _, NegInf => false
  | PosInf, _ => false
  | NegInf, NegInf => false
  | NegInf, _ => true
  end.

(** [a <= b] *)
Definition le (a b : number) : bool :=
  match a, b with
  | NaN, _ | _, NaN => false
  | Fin x, Fin y => Qle_bool x y
  | Fin _, PosInf => true
  | Fin _, NegInf => false
  | PosInf, PosInf => true
  | PosInf, _ => false
  | NegInf, _ => true
  end.

(** [a > b] and [a >= b] *)
Definition gt (a b : number) : bool := lt b a.

(** ToBoolean on a number: false for 0 and NaN. *)
Definition truthy (n : number) : bool :=
  match n with
  | Fin q => negb (Qeq_bool q 0)
  | NaN => false
  | _ => true
  end.

Inductive sign := Neg | Zero | Pos.

Definition sgn (q : Q) : sign :=
  if Qeq_bool q 0 then Zero else if Qle_bool q 0 then Neg else Pos.

Definition inf_of (s : sign) (flip : bool) : number :=
  match s, flip with
  | Zero, _ => NaN
  | Pos, false | Neg, true => PosInf
  | Pos, true | Neg, false => NegInf
  end.

(** [a + b] *)
Definition add (a b : number) : number :=
  match a, b with
  | NaN, _ | _, NaN => NaN
  | Fin x, Fin y => Fin (x + y)
  | PosInf, NegInf | NegInf, PosInf => NaN
  | PosInf, _ | _, PosInf => PosInf
  | NegInf, _ | _, NegInf => NegInf
  end.

(** [a * b] *)
Definition mul (a b : number) : number :=
  match a, b with
  | NaN, _ | _, NaN => NaN
  | Fin x, Fin y => Fin (x * y)
  | Fin x, PosInf | PosInf, Fin x => inf_of (sgn x) false
  | Fin x, NegInf | NegInf, Fin x => inf_of (sgn x) true
  | PosInf, PosInf | NegInf, NegInf => PosInf
  | PosInf, NegInf | NegInf, PosInf => NegInf
  end.

(** [a / b] *)
Definition div (a b : number) : number :=
  match a, b with
  | NaN, _ | _, NaN => NaN
  | Fin x, Fin y =>
      match sgn y with
      | Zero => inf_of (sgn x) false
      | _ => Fin (x / y)
      end
  | Fin _, _ => Fin 0
  | PosInf, Fin y => match sgn y with Neg => NegInf | _ => PosInf end
  | NegInf, Fin y => match sgn y with Neg => PosInf | _ => NegInf end
  | _, _ => NaN
  end.

(** [Math.floor] *)
Definition floor (a : number) : number :=
  match a with
  | Fin x => Fin (inject_Z (Qfloor x))
  | other => other
  end.

(** [Math.min] and [Math.max] on two arguments *)
Definition min (a b : number) : number :=
  match a, b with
  | NaN, _ | _, NaN => NaN
  | _, _ => if le a b then a else b
  end.

Definition max (a b : number) : number :=
  match a, b with
  | NaN, _ | _, NaN => NaN
  | _, _ => if le a b then b else a
  end.

(** The integer part used where the engine hands a delay to a timer. *)
Definition toMs (a : number) : Z :=
  match a with Fin x => Qfloor x | _ => 0 end.

End Num.

(** ** Strings *)

Local Open Scope string_scope.
Local Open Scope Z_scope.

Definition isWhiteSpace (c : ascii) : bool :=
  let n := nat_of_ascii c in
  (Nat.eqb n 9 || Nat.eqb n 10 || Nat.eqb n 11 || Nat.eqb n 12 ||
   Nat.eqb n 13 || Nat.eqb n 32)%bool.

Definition digitOf (c : ascii) : option Z :=
  let n := nat_of_ascii c in
  if (Nat.leb 48 n && Nat.leb n 57)%bool then Some (Z.of_nat n - 48) else None.

Fixpoint skipWhiteSpace (s : string) : string :=
  match s with
  | String c rest => if isWhiteSpace c then skipWhiteSpace rest else s
  | EmptyString => s
  end.

(** The longest prefix of decimal digits, read most significant first;
    [acc] is [None] until a digit has been seen. *)
Fixpoint readDigits (s : string) (acc : option Z) : option Z :=
  match s with
  | String c rest =>
      match digitOf c with
      | Some d =>
          readDigits rest
            (Some (10 * (match acc with Some a => a | None => 0 end) + d))
      | None => acc
      end
  | EmptyString => acc
  end.

(** [parseInt(s, 10)]: leading white space, an optional sign, then the
    longest run of digits; [None] stands for NaN. *)
Definition parseInt (s : string) : option Z :=
  match skipWhiteSpace s with
  | String "-"%char rest => option_map Z.opp (readDigits rest None)
  | String "+"%char rest => readDigits rest None
  | body => readDigits body None
  end.

Definition lowerChar (c : ascii) : ascii :=
  let n := nat_of_ascii c in
  if (Nat.leb 65 n && Nat.leb n 90)%bool then ascii_of_nat (n + 32) else c.

(** [String.prototype.toLowerCase] on ASCII text *)
Fixpoint toLowerCase (s : string) : string :=
  match s with
  | String c rest => String (lowerChar c) (toLowerCase rest)
  | EmptyString => EmptyString
  end.

(** [String.prototype.includes] *)
Fixpoint includes (s pattern : string) : bool :=
  if String.prefix pattern s then true
  else match s with
       | String _ rest => includes rest pattern
       | EmptyString => false
       end.

(** Decimal rendering of an integer, as in a template literal. *)
Definition showZ (z : Z) : string :=
  NilZero.string_of_int (Z.to_int z).

(** ** Plain objects used as string-keyed maps

    A [Record<string, string>] keeps its keys in insertion order; writing an
    existing key replaces the value in place. *)

Definition Headers : Type := list (string * string).

Fixpoint objGet (o : Headers) (k : string) : option string :=
  match o with
  | (k', v) :: rest => if String.eqb k' k then Some v else objGet rest k
  | [] => None
  end.

Fixpoint objSet (o : Headers) (k v : string) : Headers :=
  match o with
  | (k', v') :: rest =>
      if String.eqb k' k then (k', v) :: rest else (k', v') :: objSet rest k v
  | [] => [(k, v)]
  end.

(** ToBoolean on an optional string: false for undefined and for the empty
    string. *)
Definition truthyStr (o : option string) : bool :=
  match o with
  | Some EmptyString | None => false
  | Some _ => true
  end.

(** ** Data model (types.ts, errors.ts, constants.ts) *)

Inductive FailureDomain : Type :=
| RateLimit
| Transient
| Permanent
| Unknown.

Definition FailureDomain_eqb (a b : FailureDomain) : bool :=
  match a, b with
  | RateLimit, RateLimit | Transient, Transient
  | Permanent, Permanent | Unknown, Unknown => true
  | _, _ => false
  end.

(** Values an operation may resolve with or throw.  Only the distinction
    between [undefined] and everything else matters to the engine. *)
Inductive Value : Type :=
| VUndefined
| VNull
| VBool (b : bool)
| VInt (z : Z)
| VStr (s : string).

Definition isUndefined (v : Value) : bool :=
  match v with VUndefined => true | _ => false end.

(** [String(v)] *)
Definition toString (v : Value) : string :=
  match v with
  | VUndefined => "undefined"
  | VNull => "null"
  | VBool true => "true"
  | VBool false => "false"
  | VInt z => showZ z
  | VStr s => s
  end.

Record ResponseMetadata : Type := mkResponseMetadata {
  status : option Z;
  headers : option Headers;
  retryAfter : option number
}.

(** An [Error] instance, with the optional properties of
    [ErrorWithResponse] and the [originalValue] the engine attaches when it
    wraps a thrown non-error. *)
Module Err.
Record Error : Type := mkError {
  name : string;
  code : option string;
  message : string;
  response : option ResponseMetadata;
  status : option Z;
  headers : option Headers;
  retryAfter : option number;
  originalValue : option Value
}.
End Err.
Abbreviation Error := Err.Error.

(** [new Error(message)] *)
Definition newError (msg : string) : Error :=
  Err.mkError "Error" None msg None None None None None.

(** [new RetryCancelledError()] *)
Definition RetryCancelledError : Error :=
  Err.mkError "RetryCancelledError" (Some "RETRY_CANCELLED")
    "Operation cancelled" None None None None None.

(** What the promise returned by [retry] can reject with. *)
Inductive Rejection : Type :=
| ThrowError (e : Error)
| ThrowExhausted (attempts : number) (lastError : option Error)
                 (failureDomain : option FailureDomain)
| ThrowConfiguration (what : string) (got : number).

(** What the caller's operation can throw. *)
Inductive Thrown : Type :=
| ThrownError (e : Error)
| ThrownValue (v : Value).

Inductive Outcome : Type :=
| Resolved (v : Value)
| Rejected (t : Thrown).

Record RetryAttempt : Type := mkRetryAttempt {
  attempt : Z;
  result : Value;
  error : option Error;
  failureDomain : FailureDomain;
  delay : number;
  timestamp : Z
}.

Inductive EventType : Type :=
| EvAttempt
| EvSuccess
| EvFailure
| EvCancelled.

Record RetryEvent : Type := mkRetryEvent {
  type : EventType;
  evAttempt : RetryAttempt;
  totalAttempts : nat;
  estimatedRemainingMs : option number;
  isLastAttempt : bool
}.

Record RetryMetrics : Type := mkRetryMetrics {
  retryRate : number;
  successRate : number;
  averageDelay : number;
  failureDomainDistribution : list (FailureDomain * Z);
  totalRetries : Z
}.

Record RetryResult : Type := mkRetryResult {
  value : Value;
  resultAttempts : list RetryAttempt;
  metrics : RetryMetrics
}.

Definition DEFAULT_MAX_ATTEMPTS : number := ofZ 3.
Definition DEFAULT_BASE_DELAY_MS : Q := 1000.
Definition DEFAULT_MAX_DELAY_MS : Q := 30000.
Definition DEFAULT_MULTIPLIER : Q := 2.
Definition EXPONENTIAL_JITTER_FACTOR : Q := 25 # 100.
Definition RATE_LIMIT_JITTER_FACTOR : Q := 1 # 10.
Definition MIN_DELAY_MS : number := ofZ 0.
Definition MAX_REASONABLE_DELAY_MS : number := ofZ 300000.

(** ** validation.ts *)

(** [validateRetryOptions]: [None] when the options are accepted, otherwise
    the configuration error thrown. *)
Definition validateRetryOptions (maxAttempts timeout : option number)
  : option Rejection :=
  match
    match maxAttempts with
    | Some m =>
        if (negb (Num.isInteger m) || Num.lt m (ofZ 1))%bool
        then Some (ThrowConfiguration "maxAttempts must be a positive integer" m)
        else None
    | None => None
    end
  with
  | Some r => Some r
  | None =>
      match timeout with
      | Some t =>
          if (negb (Num.isFinite t) || Num.le t (ofZ 0))%bool
          then Some (ThrowConfiguration "timeout must be a positive number" t)
          else None
      | None => None
      end
  end.

(** [validateAndClampDelay] *)
Definition validateAndClampDelay (delay : option number) : option number :=
  match delay with
  | None => None
  | Some d =>
      if (negb (Num.isFinite d) || Num.lt d MIN_DELAY_MS)%bool
      then Some MIN_DELAY_MS
      else Some (Num.min (Num.floor d) MAX_REASONABLE_DELAY_MS)
  end.

(** [validateAttemptNumber]: true when the number is accepted. *)
Definition validateAttemptNumber (attempt : Z) : bool := 1 <=? attempt.

(** ** parse-retry-after.ts, utils/headers.ts, utils.ts *)

Section Host.

(** [new Date(s).getTime()]: the host's date parser, [None] for an
    invalid date.  Its grammar is implementation-defined. *)
Variable parseDate : string -> option Z.

(** [parseRetryAfter], at wall-clock time [now]. *)
Definition parseRetryAfter (header : option string) (now : Z)
  : option number :=
  match header with
  | None | Some EmptyString => None
  | Some h =>
      match parseInt h with
      | Some seconds => Some (ofZ seconds)
      | None =>
          match parseDate h with
          | Some date =>
              let retryAfterMs := date - now in
              Some (ofZ (Z.max 0 (retryAfterMs / 1000)))
          | None => None
          end
      end
  end.

(** [parseHeaders] on the entries of a Headers object, a Map or a plain
    object; an absent argument gives the empty record. *)
Definition parseHeaders (h : option Headers) : Headers :=
  match h with
  | None => []
  | Some entries =>
      fold_left (fun acc kv => objSet acc (toLowerCase (fst kv)) (snd kv))
                entries []
  end.

Definition isErrorWithResponse (e : Error) : bool :=
  match Err.response e, Err.status e, Err.headers e with
  | None, None, None => false
  | _, _, _ => true
  end.

Definition nonEmptyHeaders (h : Headers) : option Headers :=
  match h with [] => None | _ => Some h end.

(** [extractResponseMetadata] *)
Definition extractResponseMetadata (e : Error) (now : Z)
  : option ResponseMetadata :=
  if negb (isErrorWithResponse e) then None
  else
    match Err.response e with
    | Some response =>
        let hs := match headers response with
                  | Some _ => parseHeaders (headers response)
                  | None => []
                  end in
        let retryAfterHeader := objGet hs "retry-after" in
        let ra := if truthyStr retryAfterHeader
                  then parseRetryAfter retryAfterHeader now
                  else None in
        Some (mkResponseMetadata (status response) (nonEmptyHeaders hs) ra)
    | None =>
        match Err.status e, Err.headers e with
        | None, None => None
        | _, _ =>
            let hs := match Err.headers e with
                      | Some _ => parseHeaders (Err.headers e)
                      | None => []
                      end in
            let retryAfterHeader := objGet hs "retry-after" in
            let ra := if truthyStr retryAfterHeader
                      then parseRetryAfter retryAfterHeader now
                      else Err.retryAfter e in
            Some (mkResponseMetadata (Err.status e) (nonEmptyHeaders hs) ra)
        end
    end.

End Host.

(** [createRetryAttemptSuccess] and [createRetryAttemptFailure].  Both
    first call [validateAttemptNumber] and throw when it rejects; the engine
    only passes loop counters, which start at 1, so that branch is never
    taken (see [retry_attempts_numbered]) and is not represented. *)
Definition createRetryAttemptSuccess (attempt : Z) (result : Value)
    (failureDomain : FailureDomain) (delay : number) (now : Z) : RetryAttempt :=
  mkRetryAttempt attempt result None failureDomain delay now.

Definition createRetryAttemptFailure (attempt : Z) (error : Error)
    (failureDomain : FailureDomain) (delay : number) (now : Z) : RetryAttempt :=
  mkRetryAttempt attempt VNull (Some error) failureDomain delay now.

(** ** classifiers and policies *)

Definition Classifier : Type :=
  Error -> option ResponseMetadata -> FailureDomain.

(** A policy sees the attempt number, the failure domain, the error and one
    draw of [Math.random]; [None] is [null]. *)
Definition Policy : Type :=
  Z -> FailureDomain -> Error -> Q -> option number.

Definition transientPatterns : list string :=
  ["timeout"; "econnreset"; "enotfound"; "econnrefused"; "etimedout";
   "network"; "temporary"; "unavailable"].

Definition statusIs (r : option ResponseMetadata) (p : Z -> bool) : bool :=
  match r with
  | Some m => match status m with Some s => p s | None => false end
  | None => false
  end.

(** [HttpFailureClassifier.classify] *)
Definition HttpFailureClassifier : Classifier :=
  fun error response =>
    if statusIs response (fun s => s =? 429) then RateLimit
    else if match response with
            | Some m => match retryAfter m with
                        | Some n => Num.truthy n
                        | None => false
                        end
            | None => false
            end then RateLimit
    else if statusIs response (fun s => negb (s =? 0) && (500 <=? s))%bool
    then Transient
    else if statusIs response
              (fun s => negb (s =? 0) && (400 <=? s) && (s <? 500))%bool
    then Permanent
    else
      let errorMessage := toLowerCase (Err.message error) in
      if existsb (fun pattern => includes errorMessage pattern)
                 transientPatterns
      then Transient
      else Unknown.

(** The exponential delay shared by both stock policies. *)
Definition calculateExponentialDelay (baseDelayMs maxDelayMs multiplier : Q)
    (attempt : Z) (rnd : Q) : number :=
  let raw := (baseDelayMs * Qpower multiplier (attempt - 1))%Q in
  let exponentialDelay := if Qle_bool raw maxDelayMs then raw else maxDelayMs in
  let jitter :=
    (exponentialDelay * EXPONENTIAL_JITTER_FACTOR * (rnd * 2 - 1))%Q in
  Num.max MIN_DELAY_MS (Num.floor (Fin (exponentialDelay + jitter)%Q)).

(** [ExponentialBackoffPolicy.calculateDelay] *)
Definition ExponentialBackoffPolicy (baseDelayMs maxDelayMs multiplier : Q)
  : Policy :=
  fun attempt failureDomain _ rnd =>
    match failureDomain with
    | RateLimit => None
    | Permanent => None
    | _ => Some (calculateExponentialDelay baseDelayMs maxDelayMs multiplier
                                           attempt rnd)
    end.

(** [RateLimitAwarePolicy.calculateDelay] *)
Definition RateLimitAwarePolicy (baseDelayMs maxDelayMs multiplier : Q)
  : Policy :=
  fun attempt failureDomain _ rnd =>
    match failureDomain with
    | Permanent => None
    | _ => Some (calculateExponentialDelay baseDelayMs maxDelayMs multiplier
                                           attempt rnd)
    end.

(** The constructor shared by both stock policies: [None] when the
    parameters are accepted, otherwise the configuration error thrown. *)
Definition validatePolicyParams (baseDelayMs maxDelayMs multiplier : number)
  : option Rejection :=
  if (negb (Num.isFinite baseDelayMs) || Num.lt baseDelayMs (ofZ 0))%bool
  then Some (ThrowConfiguration "baseDelayMs must be a non-negative number"
                                baseDelayMs)
  else if (negb (Num.isFinite maxDelayMs) || Num.lt maxDelayMs baseDelayMs)%bool
  then Some (ThrowConfiguration
               "maxDelayMs must be a finite number >= baseDelayMs" maxDelayMs)
  else if (negb (Num.isFinite multiplier) || Num.le multiplier (ofZ 0))%bool
  then Some (ThrowConfiguration "multiplier must be a positive number"
                                multiplier)
  else None.

Definition finiteValue (n : number) : Q :=
  match n with Fin q => q | _ => 0%Q end.

(** [new ExponentialBackoffPolicy(baseDelayMs, maxDelayMs, multiplier)] *)
Definition newExponentialBackoffPolicy (baseDelayMs maxDelayMs multiplier : number)
  : Rejection + Policy :=
  match validatePolicyParams baseDelayMs maxDelayMs multiplier with
  | Some rejection => inl rejection
  | None => inr (ExponentialBackoffPolicy (finiteValue baseDelayMs)
                   (finiteValue maxDelayMs) (finiteValue multiplier))
  end.

(** [new RateLimitAwarePolicy(baseDelayMs, maxDelayMs, multiplier)] *)
Definition newRateLimitAwarePolicy (baseDelayMs maxDelayMs multiplier : number)
  : Rejection + Policy :=
  match validatePolicyParams baseDelayMs maxDelayMs multiplier with
  | Some rejection => inl rejection
  | None => inr (RateLimitAwarePolicy (finiteValue baseDelayMs)
                   (finiteValue maxDelayMs) (finiteValue multiplier))
  end.

(** ** circuit-breaker.ts *)

Inductive CircuitState : Type :=
| Closed
| Open
| HalfOpen.

Definition CircuitState_eqb (a b : CircuitState) : bool :=
  match a, b with
  | Closed, Closed | Open, Open | HalfOpen, HalfOpen => true
  | _, _ => false
  end.

Definition showCircuitState (s : CircuitState) : string :=
  match s with
  | Closed => "closed"
  | Open => "open"
  | HalfOpen => "half-open"
  end.

Record CircuitBreakerParams : Type := mkCircuitBreakerParams {
  failureThreshold : Z;
  successThreshold : Z;
  timeout : Z
}.

Module CircuitBreaker.

(** The private fields of the class; [notified] is the sequence of
    states passed to [onStateChange] so far. *)
Record t : Type := mk {
  params : CircuitBreakerParams;
  state : CircuitState;
  failureCount : Z;
  successCount : Z;
  lastFailureTime : option Z;
  notified : list CircuitState
}.

(** [new CircuitBreaker(params)] *)
Definition new (p : CircuitBreakerParams) : t :=
  mk p Closed 0 0 None [].

Definition transitionTo (newState : CircuitState) (cb : t) : t :=
  if negb (CircuitState_eqb (state cb) newState)
  then mk (params cb) newState (failureCount cb) (successCount cb)
          (lastFailureTime cb) (notified cb ++ [newState])
  else cb.

Definition setSuccessCount (n : Z) (cb : t) : t :=
  mk (params cb) (state cb) (failureCount cb) n
     (lastFailureTime cb) (notified cb).

Definition setFailureCount (n : Z) (cb : t) : t :=
  mk (params cb) (state cb) n (successCount cb)
     (lastFailureTime cb) (notified cb).

Definition setLastFailureTime (tm : option Z) (cb : t) : t :=
  mk (params cb) (state cb) (failureCount cb) (successCount cb)
     tm (notified cb).

(** ToBoolean on [lastFailureTime]: false for null and for 0. *)
Definition truthyTime (tm : option Z) : bool :=
  match tm with
  | Some v => negb (v =? 0)
  | None => false
  end.

(** [canExecute], at wall-clock time [now]: the answer and the breaker
    after the call. *)
Definition canExecute (now : Z) (cb : t) : bool * t :=
  match state cb with
  | Closed => (true, cb)
  | Open =>
      if (truthyTime (lastFailureTime cb) &&
          (timeout (params cb) <=?
             now - match lastFailureTime cb with Some v => v | None => 0 end))%bool
      then (true, transitionTo HalfOpen cb)
      else (false, cb)
  | HalfOpen => (true, cb)
  end.

(** [recordSuccess] *)
Definition recordSuccess (cb : t) : t :=
  match state cb with
  | HalfOpen =>
      let cb1 := setSuccessCount (successCount cb + 1) cb in
      if successThreshold (params cb1) <=? successCount cb1
      then setSuccessCount 0 (transitionTo Closed cb1)
      else cb1
  | Closed => setFailureCount 0 cb
  | Open => cb
  end.

(** [recordFailure], at wall-clock time [now] *)
Definition recordFailure (now : Z) (cb : t) : t :=
  let cb1 := setLastFailureTime (Some now) cb in
  let cb2 := setFailureCount (failureCount cb1 + 1) cb1 in
  match state cb2 with
  | HalfOpen => setSuccessCount 0 (transitionTo Open cb2)
  | Closed =>
      if failureThreshold (params cb2) <=? failureCount cb2
      then transitionTo Open cb2
      else cb2
  | Open => cb2
  end.

Definition getState (cb : t) : CircuitState := state cb.

(** [reset] *)
Definition reset (cb : t) : t :=
  mk (params cb) Closed 0 0 None (notified cb ++ [Closed]).

End CircuitBreaker.

(** ** rate-limit-tracker.ts *)

Record EndpointState : Type := mkEndpointState {
  epRemaining : Z;
  epResetAt : Z;
  epLimit : Z
}.

Record RateLimitState : Type := mkRateLimitState {
  remaining : Z;
  resetAt : Z;
  limit : Z;
  perEndpoint : option (list (string * EndpointState))
}.

(** The [perEndpoint] record: keys in insertion order, a write to an
    existing key replaces its value. *)
Fixpoint epGet (o : list (string * EndpointState)) (k : string)
  : option EndpointState :=
  match o with
  | (k', v) :: rest => if String.eqb k' k then Some v else epGet rest k
  | [] => None
  end.

Fixpoint epSet (o : list (string * EndpointState)) (k : string)
    (v : EndpointState) : list (string * EndpointState) :=
  match o with
  | (k', v') :: rest =>
      if String.eqb k' k then (k', v) :: rest else (k', v') :: epSet rest k v
  | [] => [(k, v)]
  end.

Module RateLimitTracker.

(** The tracker holds at most one state. *)
Definition t : Type := option RateLimitState.

(** [new RateLimitTracker({ initialState })]; a supplier function is
    called once, here. *)
Definition new (initialState : option RateLimitState) : t := initialState.

Definition getState (tr : t) : option RateLimitState := tr.

Definition parseHeader (hs : Headers) (name : string) : option Z :=
  let v := objGet hs (toLowerCase name) in
  if negb (truthyStr v) then None
  else match v with
       | Some s => parseInt s
       | None => None
       end.

(** [updateFromHeaders(headers)], without an endpoint: the global state
    is replaced when all three headers parse. *)
Definition updateFromHeaders (hs : Headers) (tr : t) : t :=
  match parseHeader hs "x-ratelimit-remaining",
        parseHeader hs "x-ratelimit-limit",
        parseHeader hs "x-ratelimit-reset" with
  | Some rem, Some lim, Some reset =>
      Some (mkRateLimitState rem (reset * 1000) lim None)
  | _, _, _ => tr
  end.

(** [getTimeUntilReset] *)
Definition getTimeUntilReset (now : Z) (tr : t) : option Z :=
  match tr with
  | None => None
  | Some s => Some (Z.max 0 (resetAt s - now))
  end.

(** [isRateLimited] *)
Definition isRateLimited (now : Z) (tr : t) : bool :=
  match tr with
  | None => false
  | Some s => ((remaining s <=? 0) && (now <? resetAt s))%bool
  end.

(** [decrement()], without an endpoint *)
Definition decrement (tr : t) : t :=
  match tr with
  | None => None
  | Some s =>
      Some (mkRateLimitState (Z.max 0 (remaining s - 1)) (resetAt s)
                             (limit s) (perEndpoint s))
  end.

(** [updateFromHeaders(headers, endpoint)]: with an endpoint and a
    [perEndpoint] record in the state, only that endpoint's entry is
    written; otherwise the global state is replaced. *)
Definition updateFromHeadersFor (hs : Headers) (endpoint : option string)
    (tr : t) : t :=
  match parseHeader hs "x-ratelimit-remaining",
        parseHeader hs "x-ratelimit-limit",
        parseHeader hs "x-ratelimit-reset" with
  | Some rem, Some lim, Some reset =>
      let resetAt' := reset * 1000 in
      match (if truthyStr endpoint then endpoint else None), tr with
      | Some ep, Some s =>
          match perEndpoint s with
          | Some pe =>
              Some (mkRateLimitState (remaining s) (resetAt s) (limit s)
                      (Some (epSet pe ep (mkEndpointState rem resetAt' lim))))
          | None => Some (mkRateLimitState rem resetAt' lim None)
          end
      | _, _ => Some (mkRateLimitState rem resetAt' lim None)
      end
  | _, _, _ => tr
  end.

(** [decrement(endpoint)]: the endpoint's own counter when the endpoint
    has an entry, the global one otherwise. *)
Definition decrementFor (endpoint : option string) (tr : t) : t :=
  match tr with
  | None => None
  | Some s =>
      match (if truthyStr endpoint then endpoint else None), perEndpoint s with
      | Some ep, Some pe =>
          match epGet pe ep with
          | Some endpointState =>
              Some (mkRateLimitState (remaining s) (resetAt s) (limit s)
                      (Some (epSet pe ep
                               (mkEndpointState
                                  (Z.max 0 (epRemaining endpointState - 1))
                                  (epResetAt endpointState)
                                  (epLimit endpointState)))))
          | None =>
              Some (mkRateLimitState (Z.max 0 (remaining s - 1)) (resetAt s)
                                     (limit s) (perEndpoint s))
          end
      | _, _ =>
          Some (mkRateLimitState (Z.max 0 (remaining s - 1)) (resetAt s)
                                 (limit s) (perEndpoint s))
      end
  end.


End RateLimitTracker.

(** ** utils/metrics.ts *)

(** [attempts.slice(0, -1)] *)
Definition sliceInit (A : Type) (l : list A) : list A := removelast l.

(** A [Record<FailureDomain, number>]: keys in insertion order. *)
Definition Distribution : Type := list (FailureDomain * Z).

Fixpoint distGet (o : Distribution) (k : FailureDomain) : option Z :=
  match o with
  | (k', v) :: rest => if FailureDomain_eqb k' k then Some v else distGet rest k
  | [] => None
  end.

Fixpoint distSet (o : Distribution) (k : FailureDomain) (v : Z) : Distribution :=
  match o with
  | (k', v') :: rest =>
      if FailureDomain_eqb k' k then (k', v) :: rest
      else (k', v') :: distSet rest k v
  | [] => [(k, v)]
  end.

(** [dist[d] = (dist[d] || 0) + 1] *)
Definition bumpDomain (dist : Distribution) (d : FailureDomain) : Distribution :=
  let current := match distGet dist d with
                 | Some v => if v =? 0 then 0 else v
                 | None => 0
                 end in
  distSet dist d (current + 1).

(** [computeMetrics] *)
Definition computeMetrics (attempts : list RetryAttempt) (wasSuccessful : bool)
  : RetryMetrics :=
  let totalAttempts := Z.of_nat (List.length attempts) in
  let totalRetries := Z.max 0 (totalAttempts - 1) in
  let retryRate :=
    if 1 <? totalAttempts
    then Num.div (ofZ totalRetries) (ofZ totalAttempts)
    else ofZ 0 in
  let successRate := if wasSuccessful then ofZ 1 else ofZ 0 in
  let delays :=
    filter (fun d => Num.gt d (ofZ 0)) (map delay (sliceInit attempts)) in
  let averageDelay :=
    if (0 <? List.length delays)%nat
    then Num.div (fold_left (fun sum d => Num.add sum d) delays (ofZ 0))
                 (ofZ (Z.of_nat (List.length delays)))
    else ofZ 0 in
  let failureDomainDistribution :=
    fold_left
      (fun dist a =>
         match error a with
         | Some _ => bumpDomain dist (failureDomain a)
         | None => dist
         end)
      attempts
      [(RateLimit, 0); (Transient, 0); (Permanent, 0); (Unknown, 0)] in
  mkRetryMetrics retryRate successRate averageDelay
                 failureDomainDistribution totalRetries.

(** [buildSuccessResult] *)
Definition buildSuccessResult (v : Value) (attempts : list RetryAttempt)
  : RetryResult :=
  mkRetryResult v attempts (computeMetrics attempts true).

(** ** retry/helpers.ts

    An [AbortSignal] is represented by the time at which it aborts;
    [None] is a signal that is absent or never aborts. *)

Definition Signal : Type := option Z.

Definition aborted (s : Signal) (now : Z) : bool :=
  match s with
  | Some t => t <=? now
  | None => false
  end.

(** [combineSignals]: the combined signal aborts as soon as one source does. *)
Definition combineSignals (a b : Signal) : Signal :=
  match a, b with
  | Some x, Some y => Some (Z.min x y)
  | Some x, None => Some x
  | None, other => other
  end.

(** [setupTimeout]: a timer armed at [now]; timers wait at least 1 ms and
    whole milliseconds. *)
Definition setupTimeout (timeoutMs : option number) (now : Z) : Signal :=
  match timeoutMs with
  | None => None
  | Some t =>
      if negb (Num.truthy t) then None
      else Some (now + Z.max 1 (Num.toMs t))
  end.

(** [sleep(ms, signal)] started at [now]: whether the promise resolved
    ([false] when it rejected with a [RetryCancelledError]) and the time at
    which it settled. *)
Definition sleep (ms : number) (signal : Signal) (now : Z) : bool * Z :=
  if aborted signal now then (false, now)
  else
    let wake := now + Z.max 0 (Num.toMs ms) in
    match signal with
    | Some t => if t <=? wake then (false, t) else (true, wake)
    | None => (true, wake)
    end.

(** ** retry/pre-checks.ts *)

Module PreCheck.
Record t : Type := mk {
  shouldProceed : bool;
  attemptRecord : option RetryAttempt;
  delay : option number
}.
End PreCheck.

(** [performPreChecks], at time [now].  The breaker is returned because
    [canExecute] may move it to half-open. *)
Definition performPreChecks (attempt : Z) (combinedSignal : Signal)
    (circuitBreaker : option CircuitBreaker.t)
    (rateLimitTracker : option RateLimitTracker.t) (now : Z)
  : PreCheck.t * option CircuitBreaker.t :=
  if aborted combinedSignal now then
    let cancelledError := RetryCancelledError in
    let attemptRecord :=
      createRetryAttemptFailure attempt cancelledError Unknown (ofZ 0) now in
    (PreCheck.mk false (Some attemptRecord) None, circuitBreaker)
  else
    let '(allowed, circuitBreaker') :=
      match circuitBreaker with
      | Some cb =>
          let '(ok, cb') := CircuitBreaker.canExecute now cb in (ok, Some cb')
      | None => (true, None)
      end in
    match circuitBreaker', allowed with
    | Some cb', false =>
        let circuitError :=
          newError ("Circuit breaker is " ++
                    showCircuitState (CircuitBreaker.getState cb')) in
        let attemptRecord :=
          createRetryAttemptFailure attempt circuitError Transient (ofZ 0) now in
        (PreCheck.mk false (Some attemptRecord) None, circuitBreaker')
    | _, _ =>
        match rateLimitTracker with
        | Some tr =>
            if RateLimitTracker.isRateLimited now tr then
              let timeUntilReset :=
                match RateLimitTracker.getTimeUntilReset now tr with
                | Some v => v
                | None => 0
                end in
              let rateLimitError :=
                newError ("Rate limit active, resets in " ++
                          showZ timeUntilReset ++ "ms") in
              let attemptRecord :=
                createRetryAttemptFailure attempt rateLimitError RateLimit
                                          (ofZ timeUntilReset) now in
              (PreCheck.mk true (Some attemptRecord) (Some (ofZ timeUntilReset)),
               circuitBreaker')
            else (PreCheck.mk true None None, circuitBreaker')
        | None => (PreCheck.mk true None None, circuitBreaker')
        end
    end.

(** ** retry/attempt-handler.ts *)

Module AttemptResult.
Record t : Type := mk {
  success : bool;
  result : Value;          (* [VUndefined] when the property is absent *)
  error : option Error;
  failureDomain : FailureDomain;
  delay : option number;
  attemptRecord : RetryAttempt
}.
End AttemptResult.

(** The error the catch block works with: the thrown [Error] itself, or a
    fresh [Error] around [String(err)] carrying the thrown value. *)
Definition caughtError (t : Thrown) : Error :=
  match t with
  | ThrownError e => e
  | ThrownValue v =>
      Err.mkError "Error" None (toString v) None None None None (Some v)
  end.

(** The Retry-After override of the catch block: [retryAfter * 1000] plus
    jitter, floored.  [rnd] is the draw of [Math.random]. *)
Definition retryAfterDelay (retryAfter : number) (rnd : Q) : number :=
  let delay := Num.mul retryAfter (ofZ 1000) in
  Num.floor
    (Num.add delay
       (Num.mul (Num.mul delay (Fin RATE_LIMIT_JITTER_FACTOR)) (Fin rnd))).

(** The delay the catch block arrives at for a failure that is not
    permanent, from what the policy returned. *)
Definition attemptDelay (failureDomain : FailureDomain)
    (responseMetadata : option ResponseMetadata)
    (policyDelay : option number) (rnd : Q) : option number :=
  let delay :=
    match policyDelay with
    | Some d =>
        if (negb (Num.isFinite d) || Num.lt d (ofZ 0))%bool then None
        else Some d
    | None => None
    end in
  let delay :=
    match failureDomain, responseMetadata with
    | RateLimit, Some m =>
        match retryAfter m with
        | Some ra => if Num.truthy ra then Some (retryAfterDelay ra rnd)
                     else delay
        | None => delay
        end
    | _, _ => delay
    end in
  validateAndClampDelay delay.

Section Engine.

(** The host: [Math.random] as a stream of draws and the date parser. *)
Variable random : nat -> Q.
Variable parseDate : string -> option Z.

Variable classifier : Classifier.
Variable policy : Policy.

(** [executeAttempt].  [outcome] is what [await fn()] settled with and
    [now] the time at which it settled; [k] numbers the invocation and
    selects the random draws available to it. *)
Definition executeAttempt (outcome : Outcome) (k : nat) (attempt : Z)
    (circuitBreaker : option CircuitBreaker.t)
    (rateLimitTracker : option RateLimitTracker.t) (now : Z)
  : AttemptResult.t * option CircuitBreaker.t * option RateLimitTracker.t :=
  match outcome with
  | Resolved result =>
      let attemptRecord :=
        createRetryAttemptSuccess attempt result Unknown (ofZ 0) now in
      (AttemptResult.mk true result None Unknown None attemptRecord,
       option_map CircuitBreaker.recordSuccess circuitBreaker,
       option_map RateLimitTracker.decrement rateLimitTracker)
  | Rejected err =>
      let error := caughtError err in
      let responseMetadata := extractResponseMetadata parseDate error now in
      let failureDomain := classifier error responseMetadata in
      match failureDomain with
      | Permanent =>
          let attemptRecord :=
            createRetryAttemptFailure attempt error failureDomain (ofZ 0) now in
          (AttemptResult.mk false VUndefined (Some error) failureDomain None
                            attemptRecord,
           option_map (CircuitBreaker.recordFailure now) circuitBreaker,
           rateLimitTracker)
      | _ =>
          let delay :=
            attemptDelay failureDomain responseMetadata
              (policy attempt failureDomain error (random (2 * k)%nat))
              (random (2 * k + 1)%nat) in
          let attemptRecord :=
            createRetryAttemptFailure attempt error failureDomain
              (match delay with Some d => d | None => ofZ 0 end) now in
          let rateLimitTracker' :=
            match failureDomain, responseMetadata with
            | RateLimit, Some m =>
                match headers m with
                | Some hs =>
                    option_map (RateLimitTracker.updateFromHeaders hs)
                               rateLimitTracker
                | None => rateLimitTracker
                end
            | _, _ => rateLimitTracker
            end in
          (AttemptResult.mk false VUndefined (Some error) failureDomain delay
                            attemptRecord,
           option_map (CircuitBreaker.recordFailure now) circuitBreaker,
           rateLimitTracker')
      end
  end.

End Engine.

(** ** retry.ts *)

(** The mutable state of one orchestration run.  [calls] and [waits] are
    observations added for the statements below: the result of every
    [executeAttempt], one per invocation of the operation and in order, and
    the number of rate-limit waits taken. *)
Module Run.
Record t : Type := mk {
  now : Z;
  attempts : list RetryAttempt;
  events : list RetryEvent;
  circuitBreaker : option CircuitBreaker.t;
  rateLimitTracker : option RateLimitTracker.t;
  calls : list AttemptResult.t;
  waits : nat
}.

Definition invocations (st : t) : nat := List.length (calls st).

Definition push (a : RetryAttempt) (st : t) : t :=
  mk (now st) (attempts st ++ [a]) (events st) (circuitBreaker st)
     (rateLimitTracker st) (calls st) (waits st).

(** [emitEvent(onEvent, createRetryEvent({ ..., totalAttempts:
    attempts.length, ... }))] *)
Definition emit (ty : EventType) (a : RetryAttempt)
    (estimatedRemainingMs : option number) (isLastAttempt : bool) (st : t)
  : t :=
  mk (now st) (attempts st)
     (events st ++
      [mkRetryEvent ty a (List.length (attempts st)) estimatedRemainingMs
                    isLastAttempt])
     (circuitBreaker st) (rateLimitTracker st) (calls st) (waits st).

Definition setNow (tm : Z) (st : t) : t :=
  mk tm (attempts st) (events st) (circuitBreaker st)
     (rateLimitTracker st) (calls st) (waits st).

Definition setCircuitBreaker (cb : option CircuitBreaker.t) (st : t) : t :=
  mk (now st) (attempts st) (events st) cb
     (rateLimitTracker st) (calls st) (waits st).

Definition setRateLimitTracker (tr : option RateLimitTracker.t) (st : t) : t :=
  mk (now st) (attempts st) (events st) (circuitBreaker st)
     tr (calls st) (waits st).

Definition logCall (r : AttemptResult.t) (st : t) : t :=
  mk (now st) (attempts st) (events st) (circuitBreaker st)
     (rateLimitTracker st) (calls st ++ [r]) (waits st).

Definition logWait (st : t) : t :=
  mk (now st) (attempts st) (events st) (circuitBreaker st)
     (rateLimitTracker st) (calls st) (S (waits st)).
End Run.

(** The statement of [retry] through which a run left the function. *)
Inductive ExitPath : Type :=
| ExitConfiguration      (* validateRetryOptions threw *)
| ExitPreCheck           (* pre-check refused: cancellation or circuit breaker *)
| ExitWaitCancelled      (* the rate-limit sleep rejected *)
| ExitSuccess            (* return buildSuccessResult(...) *)
| ExitNoRetry            (* permanent error or no delay *)
| ExitExhausted          (* last attempt failed *)
| ExitSleepCancelled     (* the inter-attempt sleep rejected *)
| ExitLoopEnd.           (* the statement after the for loop *)

Record RunResult : Type := mkRunResult {
  outcome : RetryResult + Rejection;
  final : Run.t;
  exit : ExitPath
}.

Inductive Step : Type :=
| Next (st : Run.t)
| Stop (r : RunResult).

Module RetryParams.
(** [fn i] is what the call number [i] (from 0) of the operation settles
    with and how many milliseconds it takes.  [signal] is the caller's
    abort signal. *)
Record t : Type := mk {
  fn : nat -> Outcome * Z;
  maxAttempts : option number;
  policy : option Policy;
  classifier : option Classifier;
  signal : Signal;
  timeout : option number;
  idempotent : bool;
  circuitBreaker : option CircuitBreakerParams;
  rateLimitState : option RateLimitState
}.
End RetryParams.

Section Retry.

Variable random : nat -> Q.
Variable parseDate : string -> option Z.

Section Loop.

Variable fn : nat -> Outcome * Z.
Variable maxAttempts : Z.
Variable policy : Policy.
Variable classifier : Classifier.
Variable combinedSignal : Signal.

(** The part of the loop body that follows [executeAttempt], given its
    result. *)
Definition afterAttempt (attempt : Z) (attemptResult : AttemptResult.t)
    (st : Run.t) : Step :=
  let st := Run.push (AttemptResult.attemptRecord attemptResult) st in
  if (AttemptResult.success attemptResult &&
      negb (isUndefined (AttemptResult.result attemptResult)))%bool
  then
    (* success *)
    let st :=
      Run.emit EvSuccess (AttemptResult.attemptRecord attemptResult)
               None true st in
    Stop (mkRunResult
            (inl (buildSuccessResult (AttemptResult.result attemptResult)
                                     (Run.attempts st)))
            st ExitSuccess)
  else
    (* failure *)
    let isLastAttempt := attempt =? maxAttempts in
    let estimatedRemainingMs :=
      match AttemptResult.delay attemptResult with
      | Some d => if negb isLastAttempt then Some d else None
      | None => None
      end in
    let st :=
      Run.emit EvAttempt (AttemptResult.attemptRecord attemptResult)
               estimatedRemainingMs isLastAttempt st in
    match AttemptResult.failureDomain attemptResult,
          AttemptResult.delay attemptResult with
    | Permanent, _ | _, None =>
        (* permanent error or no delay: fail immediately *)
        let st :=
          Run.emit EvFailure (AttemptResult.attemptRecord attemptResult)
                   None true st in
        Stop (mkRunResult
                (inr (match AttemptResult.error attemptResult with
                      | Some e => ThrowError e
                      | None => ThrowError (newError "Unknown error")
                      end))
                st ExitNoRetry)
    | _, Some d =>
        if isLastAttempt then
          let st :=
            Run.emit EvFailure (AttemptResult.attemptRecord attemptResult)
                     None true st in
          Stop (mkRunResult
                  (inr (ThrowExhausted (ofZ maxAttempts)
                          (AttemptResult.error attemptResult)
                          (Some (AttemptResult.failureDomain attemptResult))))
                  st ExitExhausted)
        else
          let '(resolved, tm) := sleep d combinedSignal (Run.now st) in
          let st := Run.setNow tm st in
          if resolved then Next st
          else
            (* the sleep was cancelled *)
            let cancelledError := RetryCancelledError in
            let cancelledAttempt :=
              createRetryAttemptFailure attempt cancelledError Unknown
                                        (ofZ 0) (Run.now st) in
            let st := Run.push cancelledAttempt st in
            let st :=
              Run.emit EvCancelled cancelledAttempt None
                       (attempt =? maxAttempts) st in
            Stop (mkRunResult (inr (ThrowError cancelledError))
                              st ExitSleepCancelled)
    end.

(** [await executeAttempt(...)] and what follows it. *)
Definition attemptStep (attempt : Z) (st : Run.t) : Step :=
  let k := Run.invocations st in
  let '(settled, duration) := fn k in
  let st := Run.setNow (Run.now st + Z.max 0 duration) st in
  let '(attemptResult, cb, tr) :=
    executeAttempt random parseDate classifier policy settled k attempt
                   (Run.circuitBreaker st) (Run.rateLimitTracker st)
                   (Run.now st) in
  let st := Run.setRateLimitTracker tr (Run.setCircuitBreaker cb st) in
  afterAttempt attempt attemptResult (Run.logCall attemptResult st).

(** One pass through the body of the [for] loop, for loop counter
    [attempt]: either the run leaves [retry] ([Stop]) or the loop
    proceeds to [attempt++] ([Next]), by [continue] or by reaching the
    end of the body. *)
Definition iteration (attempt : Z) (st : Run.t) : Step :=
  let '(preCheck, cb) :=
    performPreChecks attempt combinedSignal (Run.circuitBreaker st)
                     (Run.rateLimitTracker st) (Run.now st) in
  let st := Run.setCircuitBreaker cb st in
  match PreCheck.shouldProceed preCheck, PreCheck.attemptRecord preCheck with
  | false, Some attemptRecord =>
      (* pre-check failure: cancellation or circuit breaker *)
      let st := Run.push attemptRecord st in
      let st :=
        Run.emit (match error attemptRecord with
                  | Some _ => EvFailure
                  | None => EvCancelled
                  end)
                 attemptRecord None (attempt =? maxAttempts) st in
      Stop (mkRunResult
              (inr (match error attemptRecord with
                    | Some e => ThrowError e
                    | None => ThrowError RetryCancelledError
                    end))
              st ExitPreCheck)
  | _, _ =>
      match PreCheck.delay preCheck, PreCheck.attemptRecord preCheck with
      | Some d, Some attemptRecord =>
          if (Num.truthy d && Num.gt d (ofZ 0))%bool then
            (* rate limit wait *)
            let st := Run.push attemptRecord st in
            let st :=
              Run.emit EvAttempt attemptRecord (Some d)
                       (attempt =? maxAttempts) st in
            let '(resolved, tm) := sleep d combinedSignal (Run.now st) in
            let st := Run.logWait (Run.setNow tm st) in
            if resolved then Next st
            else Stop (mkRunResult (inr (ThrowError RetryCancelledError))
                                   st ExitWaitCancelled)
          else attemptStep attempt st
      | _, _ => attemptStep attempt st
      end
  end.

(** [for (let attempt = 1; attempt <= maxAttempts; attempt++)], entered
    with [remaining = maxAttempts - attempt + 1] iterations to go, and
    the statement after the loop. *)
Fixpoint retryLoop (remaining : nat) (attempt : Z) (st : Run.t)
  : RunResult :=
  match remaining with
  | O =>
      mkRunResult (inr (ThrowExhausted (ofZ maxAttempts) None None))
                  st ExitLoopEnd
  | S remaining' =>
      match iteration attempt st with
      | Next st' => retryLoop remaining' (attempt + 1) st'
      | Stop r => r
      end
  end.

End Loop.

(** The destructuring defaults of [retry]. *)
Definition effectiveMaxAttempts (params : RetryParams.t) : number :=
  match RetryParams.maxAttempts params with
  | Some m => m
  | None => DEFAULT_MAX_ATTEMPTS
  end.

Definition effectivePolicy (params : RetryParams.t) : Policy :=
  match RetryParams.policy params with
  | Some p => p
  | None => RateLimitAwarePolicy DEFAULT_BASE_DELAY_MS DEFAULT_MAX_DELAY_MS
                                  DEFAULT_MULTIPLIER
  end.

Definition effectiveClassifier (params : RetryParams.t) : Classifier :=
  match RetryParams.classifier params with
  | Some c => c
  | None => HttpFailureClassifier
  end.

(** The state set up between validation and the loop: an empty history, a
    circuit breaker and a rate-limit tracker built from the options when
    these are given. *)
Definition initialRun (params : RetryParams.t) (start : Z) : Run.t :=
  let circuitBreaker :=
    match RetryParams.circuitBreaker params with
    | Some circuitBreakerOptions =>
        Some (CircuitBreaker.new circuitBreakerOptions)
    | None => None
    end in
  let rateLimitTracker :=
    match RetryParams.rateLimitState params with
    | Some s => Some (RateLimitTracker.new (Some s))
    | None => None
    end in
  Run.mk start [] [] circuitBreaker rateLimitTracker [] O.

Definition runSignal (params : RetryParams.t) (start : Z) : Signal :=
  let timeoutSignal := setupTimeout (RetryParams.timeout params) start in
  combineSignals (RetryParams.signal params) timeoutSignal.

(** [retry(params)], called at wall-clock time [start]. *)
Definition retry (params : RetryParams.t) (start : Z) : RunResult :=
  let maxAttempts := effectiveMaxAttempts params in
  match validateRetryOptions (Some maxAttempts) (RetryParams.timeout params) with
  | Some rejection =>
      mkRunResult (inr rejection) (Run.mk start [] [] None None [] O)
                  ExitConfiguration
  | None =>
      retryLoop (RetryParams.fn params) (Num.toMs maxAttempts)
                (effectivePolicy params) (effectiveClassifier params)
                (runSignal params start)
                (Z.to_nat (Num.toMs maxAttempts)) 1
                (initialRun params start)
  end.

End Retry.

(** ** Reference definitions, following the wording of the specification *)

(** Metrics: the reference the reduction is compared with. *)

Definition positive (d : number) : bool := Num.lt (ofZ 0) d.

Definition sumOf (l : list number) : number :=
  fold_right Num.add (ofZ 0) l.

Definition meanOf (l : list number) : number :=
  match l with
  | [] => ofZ 0
  | _ => Num.div (sumOf l) (ofZ (Z.of_nat (List.length l)))
  end.

Definition allButLast (A : Type) (l : list A) : list A :=
  firstn (List.length l - 1) l.

Definition carriesError (a : RetryAttempt) : bool :=
  match error a with Some _ => true | None => false end.

Definition failuresIn (d : FailureDomain) (l : list RetryAttempt) : Z :=
  Z.of_nat
    (List.length
       (filter (fun a => carriesError a && FailureDomain_eqb (failureDomain a) d)%bool
               l)).

Definition referenceMetrics (attempts : list RetryAttempt) (wasSuccessful : bool)
  : RetryMetrics :=
  let n := Z.of_nat (List.length attempts) in
  mkRetryMetrics
    (if 1 <? n then Num.div (ofZ (n - 1)) (ofZ n) else ofZ 0)
    (if wasSuccessful then ofZ 1 else ofZ 0)
    (meanOf (filter positive (map delay (allButLast attempts))))
    (map (fun d => (d, failuresIn d attempts))
         [RateLimit; Transient; Permanent; Unknown])
    (match attempts with [] => 0 | _ => n - 1 end).

(** Retry-After: what a header value denotes. *)

Definition isDigit (c : ascii) : bool :=
  match digitOf c with Some _ => true | None => false end.

Fixpoint allDigits (s : string) : bool :=
  match s with
  | String c rest => (isDigit c && allDigits rest)%bool
  | EmptyString => true
  end.

(** The integer written by a string of decimal digits. *)
Definition decimalValue (s : string) : Z :=
  fold_left (fun acc c => 10 * acc + (Z.of_nat (nat_of_ascii c) - 48))
            (list_ascii_of_string s) 0.




(** Configuration the engine must reject. *)
Definition invalidMaxAttempts (m : number) : Prop :=
  Num.isInteger m = false \/ Num.lt m (ofZ 1) = true.

Definition invalidTimeout (t : number) : Prop :=
  Num.isFinite t = false \/ Num.le t (ofZ 0) = true.

(** A policy answer that declines to retry: null, or a value that is not a
    finite non-negative number. *)
Definition declines (p : option number) : Prop :=
  match p with
  | None => True
  | Some d => Num.isFinite d = false \/ Num.lt d (ofZ 0) = true
  end.

(** The Retry-After override applies: the domain is rate-limit and the
    extracted metadata has a Retry-After value other than 0 and NaN. *)
Definition overrideApplies (d : FailureDomain) (m : option ResponseMetadata)
  : bool :=
  match d, m with
  | RateLimit, Some meta =>
      match retryAfter meta with
      | Some ra => Num.truthy ra
      | None => false
      end
  | _, _ => false
  end.

(** An attempt result after which the loop goes on to sleep or to the
    exhaustion test, rather than leaving at once. *)
Definition continued (r : AttemptResult.t) : bool :=
  (negb (AttemptResult.success r && negb (isUndefined (AttemptResult.result r))) &&
   negb (FailureDomain_eqb (AttemptResult.failureDomain r) Permanent) &&
   match AttemptResult.delay r with Some _ => true | None => false end)%bool.

(** Records in the history that do not stand for an invocation and are due
    to the way the run ended: the refused pre-check and the cancelled
    inter-attempt sleep each leave one. *)
Definition closingRecords (e : ExitPath) : nat :=
  match e with
  | ExitPreCheck | ExitSleepCancelled => 1
  | _ => 0
  end.

(** How the loop leaves at once after an attempt result that is not
    [continued]: with the success result, or by throwing the recorded error
    (a generic one when there is none). *)
Definition stopOutcome (r : AttemptResult.t) (attempts : list RetryAttempt)
  : RetryResult + Rejection :=
  if (AttemptResult.success r && negb (isUndefined (AttemptResult.result r)))%bool
  then inl (buildSuccessResult (AttemptResult.result r) attempts)
  else inr (ThrowError (match AttemptResult.error r with
                        | Some e => e
                        | None => newError "Unknown error"
                        end)).

Definition stopExit (r : AttemptResult.t) : ExitPath :=
  if (AttemptResult.success r && negb (isUndefined (AttemptResult.result r)))%bool
  then ExitSuccess else ExitNoRetry.

(** The attempt number of a record is one [validateAttemptNumber] accepts. *)
Definition numbered (a : RetryAttempt) : Prop :=
  validateAttemptNumber (attempt a) = true.

(** Invariants of a run. *)
Section RunInvariants.

Variable random : nat -> Q.
Variable parseDate : string -> option Z.
Variable classifier : Classifier.
Variable policy : Policy.
Variable fn : nat -> Outcome * Z.

(** Entry [i] of the log is the result of [executeAttempt] on what call
    number [i] of the operation settled with. *)
Definition wellLogged (calls : list AttemptResult.t) : Prop :=
  forall i r, nth_error calls i = Some r ->
    exists attempt cb tr now,
      r = fst (fst (executeAttempt random parseDate classifier policy
                                   (fst (fn i)) i attempt cb tr now)).

(** A state from which the loop goes on. *)
Definition Steady (st : Run.t) : Prop :=
  wellLogged (Run.calls st) /\
  Forall (fun r => continued r = true) (Run.calls st) /\
  List.length (Run.attempts st) = (Run.invocations st + Run.waits st)%nat.

(** A finished run. *)
Definition Settled (r : RunResult) : Prop :=
  wellLogged (Run.calls (final r)) /\
  (forall i a, nth_error (Run.calls (final r)) i = Some a ->
               continued a = false ->
               S i = Run.invocations (final r) /\
               outcome r = stopOutcome a (Run.attempts (final r)) /\
               exit r = stopExit a) /\
  List.length (Run.attempts (final r))
  = (Run.invocations (final r) + Run.waits (final r)
     + closingRecords (exit r))%nat.

End RunInvariants.

(** ** Sequences of calls on a circuit breaker *)

(** A call of one of the public methods of the breaker, with the
    wall-clock time for the two that read it. *)
Inductive BreakerCall : Type :=
| CallCanExecute (now : Z)
| CallRecordSuccess
| CallRecordFailure (now : Z)
| CallReset.

Definition breakerCall (c : BreakerCall) (cb : CircuitBreaker.t)
  : CircuitBreaker.t :=
  match c with
  | CallCanExecute now => snd (CircuitBreaker.canExecute now cb)
  | CallRecordSuccess => CircuitBreaker.recordSuccess cb
  | CallRecordFailure now => CircuitBreaker.recordFailure now cb
  | CallReset => CircuitBreaker.reset cb
  end.

(** The calls of a list, made in order. *)
Definition breakerCalls (cs : list BreakerCall) (cb : CircuitBreaker.t)
  : CircuitBreaker.t :=
  fold_left (fun b c => breakerCall c b) cs cb.

Definition isReset (c : BreakerCall) : bool :=
  match c with CallReset => true | _ => false end.

(** No two neighbours of the list are equal. *)
Fixpoint distinctNeighbours (l : list CircuitState) : bool :=
  match l with
  | x :: ((y :: _) as rest) =>
      (negb (CircuitState_eqb x y) && distinctNeighbours rest)%bool
  | _ => true
  end.

(** What holds of a breaker after any calls. *)
Definition breakerSound (p : CircuitBreakerParams) (cb : CircuitBreaker.t)
  : Prop :=
  CircuitBreaker.params cb = p /\
  0 <= CircuitBreaker.failureCount cb /\
  0 <= CircuitBreaker.successCount cb /\
  (CircuitBreaker.state cb <> Closed ->
   exists t, CircuitBreaker.lastFailureTime cb = Some t) /\
  (CircuitBreaker.state cb <> HalfOpen -> CircuitBreaker.successCount cb = 0) /\
  (1 <= successThreshold p -> CircuitBreaker.state cb = HalfOpen ->
   CircuitBreaker.successCount cb < successThreshold p).

(** The notifications agree with the state: the last state the callback
    was told is the current one and it was never told the same state twice
    in a row. *)
Definition logAgrees (cb : CircuitBreaker.t) : Prop :=
  last (Closed :: CircuitBreaker.notified cb) Closed = CircuitBreaker.state cb /\
  distinctNeighbours (Closed :: CircuitBreaker.notified cb) = true.


(** The Retry-After value of the metadata is absent, 0 or NaN. *)
Definition noRetryAfter (m : ResponseMetadata) : Prop :=
  match retryAfter m with
  | Some n => Num.truthy n = false
  | None => True
  end.


(** The leading decimal digits of a string. *)
Fixpoint digitPrefix (s : string) : string :=
  match s with
  | String c rest => if isDigit c then String c (digitPrefix rest) else EmptyString
  | EmptyString => EmptyString
  end.

(** What a run threw or returned, by the statement it left through. *)
Definition explained (maxAttempts : Z) (r : RunResult) : Prop :=
  match exit r with
  | ExitSuccess =>
      exists a pre hist,
        Run.calls (final r) = (pre ++ [a])%list /\
        AttemptResult.success a = true /\
        isUndefined (AttemptResult.result a) = false /\
        Run.attempts (final r) = (hist ++ [AttemptResult.attemptRecord a])%list /\
        outcome r = inl (buildSuccessResult (AttemptResult.result a)
                                            (Run.attempts (final r)))
  | ExitNoRetry =>
      exists a pre,
        Run.calls (final r) = (pre ++ [a])%list /\
        continued a = false /\
        outcome r = inr (ThrowError (match AttemptResult.error a with
                                     | Some e => e
                                     | None => newError "Unknown error"
                                     end))
  | ExitExhausted =>
      exists a pre,
        Run.calls (final r) = (pre ++ [a])%list /\
        continued a = true /\
        outcome r = inr (ThrowExhausted (ofZ maxAttempts)
                           (AttemptResult.error a)
                           (Some (AttemptResult.failureDomain a)))
  | ExitPreCheck =>
      outcome r = inr (ThrowError RetryCancelledError) \/
      outcome r = inr (ThrowError (newError "Circuit breaker is open"))
  | ExitWaitCancelled | ExitSleepCancelled =>
      outcome r = inr (ThrowError RetryCancelledError)
  | ExitLoopEnd =>
      outcome r = inr (ThrowExhausted (ofZ maxAttempts) None None)
  | ExitConfiguration =>
      exists what got, outcome r = inr (ThrowConfiguration what got)
  end.

(** The closing event of a run, by the statement it left through; the
    rate-limit sleep that rejects, the statement after the loop and the
    configuration error emit none. *)
Definition closingEvent (e : ExitPath) : list EventType :=
  match e with
  | ExitSuccess => [EvSuccess]
  | ExitNoRetry | ExitExhausted | ExitPreCheck => [EvFailure]
  | ExitSleepCancelled => [EvCancelled]
  | ExitWaitCancelled | ExitLoopEnd | ExitConfiguration => []
  end.

(** An event reports the record that was the last of the history when it
    was emitted, and the length of the history then. *)
Definition reportsLatest (attempts : list RetryAttempt) (ev : RetryEvent)
  : Prop :=
  (1 <= totalAttempts ev)%nat /\
  nth_error attempts (totalAttempts ev - 1) = Some (evAttempt ev).

(** While the loop goes on, only [attempt] events have been emitted. *)
Definition quiet (st : Run.t) : Prop :=
  Forall (fun ev => type ev = EvAttempt) (Run.events st) /\
  Forall (reportsLatest (Run.attempts st)) (Run.events st).

(** The events of a finished run: [attempt] events, then the closing
    event of the way it ended, each reporting a record of the final
    history. *)
Definition reported (r : RunResult) : Prop :=
  Forall (reportsLatest (Run.attempts (final r))) (Run.events (final r)) /\
  exists evs tail,
    Run.events (final r) = (evs ++ tail)%list /\
    Forall (fun ev => type ev = EvAttempt) evs /\
    map type tail = closingEvent (exit r).

(** ** Sample inputs *)

(** [createHttpError] of utils.ts *)
Definition createHttpError (message : string) (metadata : ResponseMetadata)
  : Error :=
  Err.mkError "Error" None message (Some metadata) (status metadata)
              (headers metadata) (retryAfter metadata) None.

Definition noDates : string -> option Z := fun _ => None.

Definition zeroDraws : nat -> Q := fun _ => 0%Q.

Definition sampleParams (fn : nat -> Outcome * Z) (maxAttempts : Z)
  : RetryParams.t :=
  RetryParams.mk fn (Some (ofZ maxAttempts)) None None None None false None None.

(** An operation that succeeds at once, behind a tracker whose window is
    used up until time 1000. *)
Definition rateLimitedOnce : RetryParams.t :=
  RetryParams.mk (fun _ => (Resolved (VInt 7), 5)) (Some (ofZ 2)) None None
                 None None false None
                 (Some (mkRateLimitState 0 1000 10 None)).

(** The same, with a single attempt allowed. *)
Definition rateLimitedSingleAttempt : RetryParams.t :=
  RetryParams.mk (fun _ => (Resolved (VInt 7), 5)) (Some (ofZ 1)) None None
                 None None false None
                 (Some (mkRateLimitState 0 1000 10 None)).

(** An operation whose promise resolves with undefined. *)
Definition resolvesUndefined : RetryParams.t :=
  sampleParams (fun _ => (Resolved VUndefined, 5)) 3.

Definition badRequestError : Error :=
  createHttpError "Bad request" (mkResponseMetadata (Some 400) None None).

Definition flakyError : Error := newError "connection reset: ECONNRESET".

(** An operation that fails twice with a transient error, then succeeds. *)
Definition failsTwice : RetryParams.t :=
  sampleParams
    (fun i => if Nat.ltb i 2 then (Rejected (ThrownError flakyError), 5)
              else (Resolved (VStr "done"), 5)) 3.

(** An operation that always fails with the same error. *)
Definition alwaysFails : RetryParams.t :=
  sampleParams (fun _ => (Rejected (ThrownError flakyError), 5)) 3.

(** The same, with a caller's signal that aborts at time 100. *)
Definition cancelledWhileSleeping : RetryParams.t :=
  RetryParams.mk (fun _ => (Rejected (ThrownError flakyError), 5))
                 (Some (ofZ 3)) None None (Some 100) None false None None.

(** An operation that always fails with a 400 response. *)
Definition badRequest : RetryParams.t :=
  sampleParams (fun _ => (Rejected (ThrownError badRequestError), 5)) 5.

Definition tooManyRequestsError : Error :=
  createHttpError "Rate limited"
    (mkResponseMetadata (Some 429) (Some [("Retry-After", "1")]) None).

(** An operation that always fails with a 429 response carrying
    Retry-After, under the exponential policy, which answers null for the
    rate-limit domain. *)
Definition tooManyRequests : RetryParams.t :=
  RetryParams.mk (fun _ => (Rejected (ThrownError tooManyRequestsError), 5))
                 (Some (ofZ 2))
                 (Some (ExponentialBackoffPolicy DEFAULT_BASE_DELAY_MS
                          DEFAULT_MAX_DELAY_MS DEFAULT_MULTIPLIER))
                 None None None false None None.

Definition timeoutError : Error := newError "socket timeout".

(** An operation that always fails with a transient error, under a policy
    that always answers null. *)
Definition decliningPolicy : RetryParams.t :=
  RetryParams.mk (fun _ => (Rejected (ThrownError timeoutError), 5))
                 (Some (ofZ 3)) (Some (fun _ _ _ _ => None))
                 None None None false None None.

(** A configuration with [maxAttempts: 0]. *)
Definition zeroAttempts : RetryParams.t :=
  sampleParams (fun _ => (Resolved (VInt 7), 5)) 0.

Definition sampleBreakerParams : CircuitBreakerParams :=
  mkCircuitBreakerParams 2 1 1000.

Definition threeFailures : list Z := [10; 20; 30].

Definition sampleRateLimitState : RateLimitState :=
  mkRateLimitState 2 60000 100
    (Some [("/users", mkEndpointState 1 30000 10);
           ("/orders", mkEndpointState 5 30000 10)]).

Definition sampleRateLimitHeaders : Headers :=
  [("x-ratelimit-remaining", "7"); ("x-ratelimit-limit", "50");
   ("x-ratelimit-reset", "90")].


(** A breaker with threshold 2 that saw two failures (at times 10 and 20),
    was asked for admission after its timeout (at 1020) and then saw one
    success. *)
Definition recoveredBreaker : CircuitBreaker.t :=
  CircuitBreaker.recordSuccess
    (snd (CircuitBreaker.canExecute 1020
            (CircuitBreaker.recordFailure 20
               (CircuitBreaker.recordFailure 10
                  (CircuitBreaker.new sampleBreakerParams))))).

(** A date in ISO 8601 form, and a host whose date parser reads it. *)
Definition isoDate : string := "2015-10-21T07:28:00Z".

Definition isoDateParser : string -> option Z :=
  fun s => if String.eqb s isoDate then Some 1445412480000 else None.


(** * Properties *)

Local Open Scope list_scope.

(** ** Arithmetic of numbers *)

Lemma Qplus_assoc_eq (x y z : Q) : (x + (y + z) = (x + y) + z)%Q.
Proof.
  destruct x as [a b], y as [c d], z as [e f].
  unfold Qplus; simpl. f_equal.
  - rewrite !Pos2Z.inj_mul. ring.
  - apply Pos.mul_assoc.
Qed.

Lemma Qplus_0_l_eq (x : Q) : (0 + x = x)%Q.
Proof.
  destruct x as [a b]. unfold Qplus; simpl.
  rewrite Z.mul_1_r. reflexivity.
Qed.

Lemma Qplus_0_r_eq (x : Q) : (x + 0 = x)%Q.
Proof.
  destruct x as [a b]. unfold Qplus; simpl.
  rewrite Z.mul_1_r, Z.add_0_r, Pos.mul_1_r. reflexivity.
Qed.

Lemma add_assoc (a b c : number) :
  Num.add a (Num.add b c) = Num.add (Num.add a b) c.
Proof.
  destruct a, b, c; simpl; try reflexivity.
  now rewrite Qplus_assoc_eq.
Qed.

Lemma add_0_l (a : number) : Num.add (ofZ 0) a = a.
Proof.
  destruct a; simpl; try reflexivity.
  change (inject_Z 0) with 0%Q. now rewrite Qplus_0_l_eq.
Qed.

Lemma add_0_r (a : number) : Num.add a (ofZ 0) = a.
Proof.
  destruct a; simpl; try reflexivity.
  change (inject_Z 0) with 0%Q. now rewrite Qplus_0_r_eq.
Qed.

(** ** Metrics *)

Lemma fold_left_add_sumOf (l : list number) (a : number) :
  fold_left (fun sum d => Num.add sum d) l a = Num.add a (sumOf l).
Proof.
  revert a. induction l as [|d l IH]; intros a; simpl.
  - symmetry. apply add_0_r.
  - rewrite IH. symmetry. apply add_assoc.
Qed.

Lemma sliceInit_allButLast (A : Type) (l : list A) :
  sliceInit l = allButLast l.
Proof.
  unfold sliceInit, allButLast.
  rewrite removelast_firstn_len. now rewrite Nat.sub_1_r.
Qed.

Lemma bumpDomain_counts (a b c d : Z) (k : FailureDomain) :
  0 <= a -> 0 <= b -> 0 <= c -> 0 <= d ->
  bumpDomain [(RateLimit, a); (Transient, b); (Permanent, c); (Unknown, d)] k
  = [(RateLimit, a + if FailureDomain_eqb k RateLimit then 1 else 0);
     (Transient, b + if FailureDomain_eqb k Transient then 1 else 0);
     (Permanent, c + if FailureDomain_eqb k Permanent then 1 else 0);
     (Unknown, d + if FailureDomain_eqb k Unknown then 1 else 0)].
Proof.
  intros Ha Hb Hc Hd.
  destruct k; unfold bumpDomain; simpl;
    rewrite ?Z.add_0_r;
    match goal with
    | |- context [?v =? 0] => destruct (Z.eqb_spec v 0) as [->|]; reflexivity
    end.
Qed.

Lemma failuresIn_nonneg (d : FailureDomain) (l : list RetryAttempt) :
  0 <= failuresIn d l.
Proof. unfold failuresIn. apply Nat2Z.is_nonneg. Qed.

Lemma failuresIn_cons (d : FailureDomain) (x : RetryAttempt)
    (l : list RetryAttempt) :
  failuresIn d (x :: l)
  = (if (carriesError x && FailureDomain_eqb (failureDomain x) d)%bool
     then 1 else 0) + failuresIn d l.
Proof.
  unfold failuresIn; cbn [filter].
  destruct (carriesError x && FailureDomain_eqb (failureDomain x) d)%bool;
    cbn [List.length]; lia.
Qed.

Lemma distribution_fold (l : list RetryAttempt) (a b c d : Z) :
  0 <= a -> 0 <= b -> 0 <= c -> 0 <= d ->
  fold_left
    (fun dist x =>
       match error x with
       | Some _ => bumpDomain dist (failureDomain x)
       | None => dist
       end)
    l [(RateLimit, a); (Transient, b); (Permanent, c); (Unknown, d)]
  = [(RateLimit, a + failuresIn RateLimit l);
     (Transient, b + failuresIn Transient l);
     (Permanent, c + failuresIn Permanent l);
     (Unknown, d + failuresIn Unknown l)].
Proof.
  revert a b c d. induction l as [|x l IH]; intros a b c d Ha Hb Hc Hd.
  - simpl. unfold failuresIn; simpl. now rewrite !Z.add_0_r.
  - simpl fold_left. rewrite !failuresIn_cons. unfold carriesError.
    destruct (error x) as [e|].
    + rewrite bumpDomain_counts by assumption.
      rewrite IH by (destruct (failureDomain x); simpl; lia).
      simpl andb. now rewrite !Z.add_assoc.
    + rewrite IH by assumption. simpl andb. reflexivity.
Qed.

(** C7. [computeMetrics] over an attempt history and a success flag is the
    reference definition: retryRate is (n-1)/n when n > 1 and 0 otherwise;
    successRate is 1 or 0 by the flag; averageDelay is the mean of the
    strictly positive delays among all attempts except the last, 0 when
    there are none; failureDomainDistribution has the four domains, each
    with the number of attempts of that domain that carry an error; and
    totalRetries is n-1 for every n >= 1. *)
Theorem computeMetrics_reference (attempts : list RetryAttempt)
    (wasSuccessful : bool) :
  computeMetrics attempts wasSuccessful
  = referenceMetrics attempts wasSuccessful.
Proof.
  unfold computeMetrics, referenceMetrics.
  set (n := Z.of_nat (List.length attempts)).
  f_equal.
  - destruct (Z.ltb_spec 1 n); [| reflexivity].
    now rewrite Z.max_r by lia.
  - rewrite sliceInit_allButLast.
    change (fun d : number => Num.gt d (ofZ 0)) with positive.
    destruct (filter positive (map delay (allButLast attempts))) as [|d ds].
    + reflexivity.
    + change (0 <? List.length (d :: ds))%nat with true. cbv iota.
      rewrite fold_left_add_sumOf, add_0_l. reflexivity.
  - rewrite distribution_fold by lia. reflexivity.
  - destruct attempts as [|a l]; [reflexivity |].
    subst n. simpl List.length. lia.
Qed.

(** ** Retry-After parsing *)

Lemma digit_not_space_or_sign (c : ascii) (d : Z) :
  digitOf c = Some d ->
  isWhiteSpace c = false /\ c <> "-"%char /\ c <> "+"%char /\
  d = Z.of_nat (nat_of_ascii c) - 48.
Proof.
  destruct c as [[] [] [] [] [] [] [] []]; vm_compute; intros H;
    try discriminate H; injection H as <-;
    repeat split; discriminate.
Qed.


Lemma readDigits_allDigits (s : string) (acc : option Z) :
  allDigits s = true ->
  readDigits s acc
  = match s with
    | EmptyString => acc
    | _ => Some (fold_left
                   (fun a c => 10 * a + (Z.of_nat (nat_of_ascii c) - 48))
                   (list_ascii_of_string s)
                   (match acc with Some a => a | None => 0 end))
    end.
Proof.
  revert acc. induction s as [|c rest IH]; intros acc H; [reflexivity |].
  simpl in H. apply andb_prop in H as [Hc Hrest].
  unfold isDigit in Hc. simpl readDigits.
  destruct (digitOf c) as [d|] eqn:Hd; [| discriminate].
  apply digit_not_space_or_sign in Hd as (_ & _ & _ & ->).
  rewrite IH by assumption.
  destruct rest; reflexivity.
Qed.





(** ** Circuit breaker *)

Lemma closed_opens_at_threshold (now : Z) (cb : CircuitBreaker.t) :
  CircuitBreaker.state cb = Closed ->
  failureThreshold (CircuitBreaker.params cb) <= CircuitBreaker.failureCount cb + 1 ->
  CircuitBreaker.state (CircuitBreaker.recordFailure now cb) = Open.
Proof.
  intros Hs Hth. unfold CircuitBreaker.recordFailure. simpl. rewrite Hs.
  destruct (Z.leb_spec (failureThreshold (CircuitBreaker.params cb))
                       (CircuitBreaker.failureCount cb + 1)); [| lia].
  unfold CircuitBreaker.transitionTo. simpl. rewrite Hs. reflexivity.
Qed.

Lemma open_half_opens_after_timeout (now last : Z) (cb : CircuitBreaker.t) :
  CircuitBreaker.state cb = Open ->
  CircuitBreaker.lastFailureTime cb = Some last -> last <> 0 ->
  timeout (CircuitBreaker.params cb) <= now - last ->
  fst (CircuitBreaker.canExecute now cb) = true /\
  CircuitBreaker.state (snd (CircuitBreaker.canExecute now cb)) = HalfOpen.
Proof.
  intros Hs Hl Hnz Ht. unfold CircuitBreaker.canExecute. rewrite Hs, Hl. simpl.
  destruct (Z.eqb_spec last 0); [contradiction |]. simpl.
  destruct (Z.leb_spec (timeout (CircuitBreaker.params cb)) (now - last));
    [| lia].
  unfold CircuitBreaker.transitionTo. rewrite Hs. simpl. auto.
Qed.

Lemma half_open_failure_reopens (now : Z) (cb : CircuitBreaker.t) :
  CircuitBreaker.state cb = HalfOpen ->
  CircuitBreaker.state (CircuitBreaker.recordFailure now cb) = Open /\
  CircuitBreaker.successCount (CircuitBreaker.recordFailure now cb) = 0.
Proof.
  intros Hs. unfold CircuitBreaker.recordFailure. simpl. rewrite Hs.
  unfold CircuitBreaker.transitionTo. simpl. rewrite Hs. simpl. auto.
Qed.

(** What closing from half-open does to the counters. *)
Lemma half_open_closes_at_threshold (cb : CircuitBreaker.t) :
  CircuitBreaker.state cb = HalfOpen ->
  successThreshold (CircuitBreaker.params cb) <= CircuitBreaker.successCount cb + 1 ->
  CircuitBreaker.state (CircuitBreaker.recordSuccess cb) = Closed /\
  CircuitBreaker.successCount (CircuitBreaker.recordSuccess cb) = 0 /\
  CircuitBreaker.failureCount (CircuitBreaker.recordSuccess cb)
  = CircuitBreaker.failureCount cb.
Proof.
  intros Hs Hth. unfold CircuitBreaker.recordSuccess. rewrite Hs. simpl.
  destruct (Z.leb_spec (successThreshold (CircuitBreaker.params cb))
                       (CircuitBreaker.successCount cb + 1)); [| lia].
  unfold CircuitBreaker.transitionTo. simpl. rewrite Hs. simpl. auto.
Qed.

(** C2. The breaker of the sample, with failureThreshold 2 and
    successThreshold 1: two failures open it, the admission check after the
    timeout makes it half-open, and one success closes it with the success
    counter at 0 but the failure counter still at 2; a single failure then
    opens it again. *)
Theorem recoveredBreaker_keeps_failureCount :
  CircuitBreaker.state recoveredBreaker = Closed /\
  CircuitBreaker.successCount recoveredBreaker = 0 /\
  CircuitBreaker.failureCount recoveredBreaker = 2 /\
  CircuitBreaker.state (CircuitBreaker.recordFailure 1030 recoveredBreaker) = Open.
Proof. repeat split. Qed.



(** ** Configuration *)

(** C9. A configuration whose maxAttempts is not an integer or is less
    than 1, or whose timeout is not finite or is at most 0, makes [retry]
    fail with a configuration error before the operation is invoked: no
    invocation, no attempt record, no event. *)
Theorem retry_rejects_invalid_configuration (random : nat -> Q)
    (parseDate : string -> option Z) (params : RetryParams.t) (start : Z) :
  (exists m, RetryParams.maxAttempts params = Some m /\ invalidMaxAttempts m) \/
  (exists t, RetryParams.timeout params = Some t /\ invalidTimeout t) ->
  let r := retry random parseDate params start in
  (exists what got, outcome r = inr (ThrowConfiguration what got)) /\
  Run.invocations (final r) = 0%nat /\
  Run.attempts (final r) = [] /\
  Run.events (final r) = [] /\
  exit r = ExitConfiguration.
Proof.
  intros H r.
  assert (Hv : exists what got,
             validateRetryOptions (Some (effectiveMaxAttempts params))
                                  (RetryParams.timeout params)
             = Some (ThrowConfiguration what got)).
  { unfold validateRetryOptions.
    destruct (negb (Num.isInteger (effectiveMaxAttempts params))
              || Num.lt (effectiveMaxAttempts params) (ofZ 1))%bool eqn:Hm.
    - eauto.
    - destruct H as [(m & Hm' & Hbad) | (t & Ht & Hbad)].
      + exfalso. unfold effectiveMaxAttempts in Hm. rewrite Hm' in Hm.
        apply orb_false_elim in Hm as [Hi Hl].
        apply negb_false_iff in Hi.
        destruct Hbad as [Hbad | Hbad]; congruence.
      + rewrite Ht.
        assert (Hc : (negb (Num.isFinite t) || Num.le t (ofZ 0))%bool = true).
        { destruct Hbad as [-> | ->]; [reflexivity | apply orb_true_r]. }
        rewrite Hc. eauto. }
  destruct Hv as (what & got & Hv).
  subst r. unfold retry. rewrite Hv. simpl.
  repeat split; eauto.
Qed.

Lemma retry_rejects_invalid_configuration_witness :
  (exists what got,
      outcome (retry zeroDraws noDates zeroAttempts 0)
      = inr (ThrowConfiguration what got)) /\
  Run.invocations (final (retry zeroDraws noDates zeroAttempts 0)) = 0%nat.
Proof.
  assert (H : (exists m, RetryParams.maxAttempts zeroAttempts = Some m /\
                         invalidMaxAttempts m) \/
              (exists t, RetryParams.timeout zeroAttempts = Some t /\
                         invalidTimeout t)).
  { left. exists (ofZ 0). split; [reflexivity |]. right. reflexivity. }
  pose proof (@retry_rejects_invalid_configuration zeroDraws noDates
                zeroAttempts 0 H) as R.
  split.
  - exact (proj1 R).
  - exact (proj1 (proj2 R)).
Defined.

(** ** Delay of a failed attempt *)

Lemma truthy_ofZ (z : Z) : z <> 0 -> Num.truthy (ofZ z) = true.
Proof.
  intros Hz. unfold Num.truthy, ofZ.
  destruct (Qeq_bool (inject_Z z) 0) eqn:E; [| reflexivity].
  apply Qeq_bool_iff in E. unfold Qeq in E. simpl in E. lia.
Qed.

Lemma clamp_integer (k : Z) :
  0 <= k ->
  validateAndClampDelay (Some (ofZ k)) = Some (ofZ (Z.min k 300000)).
Proof.
  intros Hk. unfold validateAndClampDelay, MIN_DELAY_MS.
  cbn [ofZ Num.isFinite negb orb Num.lt].
  assert (Hle : Qle_bool (inject_Z 0) (inject_Z k) = true).
  { apply Qle_bool_iff. rewrite <- Zle_Qle. exact Hk. }
  rewrite Hle. cbn [negb].
  unfold Num.floor, ofZ. rewrite Qfloor_Z.
  unfold Num.min, MAX_REASONABLE_DELAY_MS, ofZ, Num.le.
  destruct (Qle_bool (inject_Z k) (inject_Z 300000)) eqn:E.
  - apply Qle_bool_iff in E. rewrite <- Zle_Qle in E.
    now rewrite Z.min_l by exact E.
  - assert (300000 < k).
    { destruct (Z.ltb_spec 300000 k); [assumption |].
      assert (Qle_bool (inject_Z k) (inject_Z 300000) = true)
        by (apply Qle_bool_iff; rewrite <- Zle_Qle; assumption).
      congruence. }
    now rewrite Z.min_r by lia.
Qed.


(** With a Retry-After value other than 0 and NaN, the delay of a
    rate-limit failure does not depend on what the policy answered. *)
Lemma attemptDelay_override (st : option Z) (hs : option Headers)
    (ra : number) (p : option number) (rnd : Q) :
  Num.truthy ra = true ->
  attemptDelay RateLimit (Some (mkResponseMetadata st hs (Some ra))) p rnd
  = validateAndClampDelay (Some (retryAfterDelay ra rnd)).
Proof. intros Hra. unfold attemptDelay. cbn [retryAfter]. now rewrite Hra. Qed.



(** ** The attempt executor *)

Lemma validateAttemptNumber_loop (attempt : Z) :
  1 <= attempt -> validateAttemptNumber attempt = true.
Proof. intros H. unfold validateAttemptNumber. now apply Z.leb_le. Qed.

Section ExecuteAttemptFacts.

Variable random : nat -> Q.
Variable parseDate : string -> option Z.
Variable classifier : Classifier.
Variable policy : Policy.

Let run (settled : Outcome) (k : nat) (attempt : Z)
    (cb : option CircuitBreaker.t) (tr : option RateLimitTracker.t)
    (now : Z) : AttemptResult.t :=
  fst (fst (executeAttempt random parseDate classifier policy settled k
                           attempt cb tr now)).

Lemma executeAttempt_record settled k a cb tr now :
  attempt (AttemptResult.attemptRecord (run settled k a cb tr now)) = a /\
  timestamp (AttemptResult.attemptRecord (run settled k a cb tr now)) = now.
Proof.
  unfold run, executeAttempt. destruct settled as [v|t].
  - split; reflexivity.
  - destruct (classifier _ _); split; reflexivity.
Qed.

Lemma executeAttempt_resolved v k a cb tr now :
  AttemptResult.success (run (Resolved v) k a cb tr now) = true /\
  AttemptResult.result (run (Resolved v) k a cb tr now) = v /\
  AttemptResult.error (run (Resolved v) k a cb tr now) = None /\
  AttemptResult.failureDomain (run (Resolved v) k a cb tr now) = Unknown /\
  AttemptResult.delay (run (Resolved v) k a cb tr now) = None.
Proof. repeat split. Qed.

Lemma executeAttempt_rejected t k a cb tr now :
  let e := caughtError t in
  let meta := extractResponseMetadata parseDate e now in
  let d := classifier e meta in
  AttemptResult.success (run (Rejected t) k a cb tr now) = false /\
  AttemptResult.error (run (Rejected t) k a cb tr now) = Some e /\
  AttemptResult.failureDomain (run (Rejected t) k a cb tr now) = d /\
  AttemptResult.delay (run (Rejected t) k a cb tr now)
  = match d with
    | Permanent => None
    | _ => attemptDelay d meta (policy a d e (random (2 * k)%nat))
                        (random (2 * k + 1)%nat)
    end.
Proof.
  intros e meta d. unfold run, executeAttempt.
  fold e. fold meta. fold d.
  destruct d eqn:Hd; repeat split.
Qed.

End ExecuteAttemptFacts.

(** ** The loop *)

Ltac run_simpl :=
  unfold Run.invocations in *;
  cbn [Run.calls Run.attempts Run.waits Run.events Run.now
       Run.circuitBreaker Run.rateLimitTracker
       Run.push Run.emit Run.setNow Run.setCircuitBreaker
       Run.setRateLimitTracker Run.logCall Run.logWait
       final outcome exit closingRecords] in *.

Lemma snoc_stop (pre : list AttemptResult.t) (a b : AttemptResult.t) (i : nat) :
  Forall (fun r => continued r = true) pre ->
  nth_error (pre ++ [a]) i = Some b ->
  continued b = false ->
  i = List.length pre /\ b = a.
Proof.
  intros Hpre Hnth Hb.
  destruct (Nat.lt_ge_cases i (List.length pre)) as [Hlt | Hge].
  - rewrite nth_error_app1 in Hnth by assumption.
    apply nth_error_In in Hnth.
    rewrite Forall_forall in Hpre. apply Hpre in Hnth. congruence.
  - rewrite nth_error_app2 in Hnth by assumption.
    destruct (i - List.length pre)%nat as [|j] eqn:Hj.
    + simpl in Hnth. split; [lia | congruence].
    + simpl in Hnth. destruct j; discriminate.
Qed.

Section LoopFacts.

Variable random : nat -> Q.
Variable parseDate : string -> option Z.
Variable fn : nat -> Outcome * Z.
Variable maxAttempts : Z.
Variable policy : Policy.
Variable classifier : Classifier.
Variable combinedSignal : Signal.

Let logged := wellLogged random parseDate classifier policy fn.
Let steady := Steady random parseDate classifier policy fn.
Let settled := Settled random parseDate classifier policy fn.

Lemma wellLogged_snoc (pre : list AttemptResult.t) (attempt : Z)
    (cb : option CircuitBreaker.t) (tr : option RateLimitTracker.t)
    (now : Z) :
  logged pre ->
  logged (pre ++
          [fst (fst (executeAttempt random parseDate classifier policy
                       (fst (fn (List.length pre))) (List.length pre)
                       attempt cb tr now))]).
Proof.
  intros Hpre i r Hnth.
  destruct (Nat.lt_ge_cases i (List.length pre)) as [Hlt | Hge].
  - rewrite nth_error_app1 in Hnth by assumption. now apply Hpre.
  - rewrite nth_error_app2 in Hnth by assumption.
    destruct (i - List.length pre)%nat as [|j] eqn:Hj.
    + simpl in Hnth. injection Hnth as <-.
      assert (i = List.length pre) as -> by lia.
      now exists attempt, cb, tr, now.
    + simpl in Hnth. destruct j; discriminate.
Qed.

Lemma continued_true (a : AttemptResult.t) (d : number) :
  (AttemptResult.success a && negb (isUndefined (AttemptResult.result a)))%bool
  = false ->
  AttemptResult.failureDomain a <> Permanent ->
  AttemptResult.delay a = Some d ->
  continued a = true.
Proof.
  intros Hs Hd Hdl. unfold continued. rewrite Hs, Hdl.
  destruct (AttemptResult.failureDomain a); try reflexivity. congruence.
Qed.

Lemma afterAttempt_step (attempt : Z) (a : AttemptResult.t) (st : Run.t)
    (pre : list AttemptResult.t) :
  Run.calls st = pre ++ [a] ->
  logged (Run.calls st) ->
  Forall (fun r => continued r = true) pre ->
  S (List.length (Run.attempts st)) = (Run.invocations st + Run.waits st)%nat ->
  match afterAttempt maxAttempts combinedSignal attempt a st with
  | Next st' => steady st' /\ Run.invocations st' = Run.invocations st
  | Stop r => settled r /\ Run.invocations (final r) = Run.invocations st
  end.
Proof.
  intros Hcalls Hlog Hpre Hlen.
  assert (Hinv : Run.invocations st = S (List.length pre)).
  { unfold Run.invocations. rewrite Hcalls, length_app. simpl. lia. }
  assert (Hstop : forall (r : RunResult),
             Run.calls (final r) = Run.calls st ->
             outcome r = stopOutcome a (Run.attempts (final r)) ->
             exit r = stopExit a ->
             List.length (Run.attempts (final r))
             = (Run.invocations (final r) + Run.waits (final r)
                + closingRecords (exit r))%nat ->
             settled r /\ Run.invocations (final r) = Run.invocations st).
  { intros r Hc Ho He Hl.
    assert (Hi : Run.invocations (final r) = Run.invocations st)
      by (unfold Run.invocations; now rewrite Hc).
    split; [| exact Hi].
    split; [now rewrite Hc |]. split; [| exact Hl].
    intros i b Hnth Hb. rewrite Hc, Hcalls in Hnth.
    destruct (@snoc_stop _ _ _ _ Hpre Hnth Hb) as [-> ->].
    rewrite Hi, Hinv. auto. }
  assert (Hgo : forall (r : RunResult),
             Run.calls (final r) = Run.calls st ->
             continued a = true ->
             List.length (Run.attempts (final r))
             = (Run.invocations (final r) + Run.waits (final r)
                + closingRecords (exit r))%nat ->
             settled r /\ Run.invocations (final r) = Run.invocations st).
  { intros r Hc Ha Hl.
    assert (Hi : Run.invocations (final r) = Run.invocations st)
      by (unfold Run.invocations; now rewrite Hc).
    split; [| exact Hi].
    split; [now rewrite Hc |]. split; [| exact Hl].
    intros i b Hnth Hb. rewrite Hc, Hcalls in Hnth.
    destruct (@snoc_stop _ _ _ _ Hpre Hnth Hb) as [_ ->]. congruence. }
  unfold afterAttempt.
  destruct (AttemptResult.success a &&
            negb (isUndefined (AttemptResult.result a)))%bool eqn:Hs.
  - apply Hstop; run_simpl.
    + reflexivity.
    + unfold stopOutcome. now rewrite Hs.
    + unfold stopExit. now rewrite Hs.
    + rewrite length_app. simpl. unfold Run.invocations in Hlen. lia.
  - assert (Hno : forall st1 : Run.t,
               Run.calls st1 = Run.calls st ->
               Run.waits st1 = Run.waits st ->
               Run.attempts st1
               = Run.attempts st ++ [AttemptResult.attemptRecord a] ->
               (AttemptResult.failureDomain a = Permanent \/
                AttemptResult.delay a = None) ->
               settled
                 (mkRunResult
                    (inr match AttemptResult.error a with
                         | Some e => ThrowError e
                         | None => ThrowError (newError "Unknown error")
                         end) st1 ExitNoRetry) /\
               Run.invocations st1 = Run.invocations st).
    { intros st1 Hc Hw Ha _.
      apply (Hstop (mkRunResult _ st1 ExitNoRetry)); run_simpl.
      - exact Hc.
      - unfold stopOutcome. rewrite Hs.
        now destruct (AttemptResult.error a).
      - unfold stopExit. now rewrite Hs.
      - rewrite Ha, length_app, Hw. unfold Run.invocations in *.
        rewrite Hc. simpl. lia. }
    destruct (AttemptResult.failureDomain a) eqn:Hd;
      destruct (AttemptResult.delay a) as [d|] eqn:Hdl;
      try (apply Hno; run_simpl; auto; fail);
      assert (Hcont : continued a = true)
        by (apply (@continued_true a d); congruence);
      (destruct (attempt =? maxAttempts);
       [ (* the last attempt: exhaustion *)
         apply Hgo; run_simpl;
         [ reflexivity | exact Hcont | rewrite length_app; simpl; lia ]
       | destruct (sleep d combinedSignal _) as [[] tm];
         [ (* the sleep resolved: next iteration *)
           run_simpl; split; [| reflexivity];
           split; [exact Hlog |]; split; run_simpl;
           [ rewrite Hcalls; apply Forall_app; split; auto
           | rewrite length_app; simpl; lia ]
         | (* the sleep was cancelled *)
           apply Hgo; run_simpl;
           [ reflexivity | exact Hcont
           | rewrite !length_app; simpl; lia ] ] ]).
Qed.

Lemma steady_frame (st st' : Run.t) :
  Run.calls st' = Run.calls st ->
  Run.attempts st' = Run.attempts st ->
  Run.waits st' = Run.waits st ->
  steady st -> steady st'.
Proof.
  intros Hc Ha Hw (Hlog & Hall & Hlen).
  unfold steady, Steady, Run.invocations in *.
  rewrite Hc, Ha, Hw. auto.
Qed.

Lemma settled_all_continued (r : RunResult) :
  logged (Run.calls (final r)) ->
  Forall (fun a => continued a = true) (Run.calls (final r)) ->
  List.length (Run.attempts (final r))
  = (Run.invocations (final r) + Run.waits (final r)
     + closingRecords (exit r))%nat ->
  settled r.
Proof.
  intros Hlog Hall Hlen. split; [exact Hlog |]. split; [| exact Hlen].
  intros i a Hnth Ha. apply nth_error_In in Hnth.
  rewrite Forall_forall in Hall. apply Hall in Hnth. congruence.
Qed.

Lemma attemptStep_step (attempt : Z) (st : Run.t) :
  steady st ->
  match attemptStep random parseDate fn maxAttempts policy classifier
                    combinedSignal attempt st with
  | Next st' => steady st' /\
                (Run.invocations st' <= S (Run.invocations st))%nat
  | Stop r => settled r /\
              (Run.invocations (final r) <= S (Run.invocations st))%nat
  end.
Proof.
  intros (Hlog & Hall & Hlen). unfold attemptStep.
  destruct (fn (Run.invocations st)) as [outcome' duration] eqn:Hfn.
  destruct (executeAttempt _ _ _ _ _ _ _ _ _ _) as [[a cb] tr] eqn:He.
  match goal with
  | |- match afterAttempt _ _ _ _ ?s with _ => _ end =>
      pose proof (@afterAttempt_step attempt a s (Run.calls st)) as Hstep
  end.
  assert (Ha : a = fst (fst (executeAttempt random parseDate classifier
                               policy
                               (fst (fn (List.length (Run.calls st))))
                               (List.length (Run.calls st)) attempt
                               (Run.circuitBreaker st)
                               (Run.rateLimitTracker st)
                               (Run.now st + Z.max 0 duration)))).
  { unfold Run.invocations in Hfn, He. rewrite Hfn.
    run_simpl. simpl fst at 3. now rewrite He. }
  run_simpl.
  assert (Hinv : (List.length (Run.calls st ++ [a])
                  = S (List.length (Run.calls st)))%nat)
    by (rewrite length_app; simpl; lia).
  rewrite Hinv in Hstep.
  destruct (afterAttempt _ _ _ _ _) as [st' | r];
    (destruct Hstep as [H1 H2];
     [ reflexivity
     | rewrite Ha; now apply wellLogged_snoc
     | exact Hall
     | lia
     | split; [exact H1 | run_simpl; lia] ]).
Qed.

Lemma iteration_step (attempt : Z) (st : Run.t) :
  steady st ->
  match iteration random parseDate fn maxAttempts policy classifier
                  combinedSignal attempt st with
  | Next st' => steady st' /\
                (Run.invocations st' <= S (Run.invocations st))%nat
  | Stop r => settled r /\
              (Run.invocations (final r) <= S (Run.invocations st))%nat
  end.
Proof.
  intros Hst. unfold iteration.
  destruct (performPreChecks _ _ _ _ _) as [[sp rec dl] cb].
  cbn [PreCheck.shouldProceed PreCheck.attemptRecord PreCheck.delay].
  assert (Hcb : steady (Run.setCircuitBreaker cb st))
    by (now apply (@steady_frame st)).
  pose proof (@attemptStep_step attempt _ Hcb) as Hgo.
  destruct Hst as (Hlog & Hall & Hlen).
  assert (Hwait : forall d a,
             match
               (let '(resolved, tm) :=
                  sleep d combinedSignal
                    (Run.now
                       (Run.emit EvAttempt a (Some d) (attempt =? maxAttempts)
                          (Run.push a (Run.setCircuitBreaker cb st)))) in
                let st0 :=
                  Run.logWait
                    (Run.setNow tm
                       (Run.emit EvAttempt a (Some d) (attempt =? maxAttempts)
                          (Run.push a (Run.setCircuitBreaker cb st)))) in
                if resolved then Next st0
                else Stop (mkRunResult (inr (ThrowError RetryCancelledError))
                                       st0 ExitWaitCancelled))
             with
             | Next st' => steady st' /\
                           (Run.invocations st' <= S (Run.invocations st))%nat
             | Stop r => settled r /\
                         (Run.invocations (final r)
                          <= S (Run.invocations st))%nat
             end).
  { intros d a. destruct (sleep d combinedSignal _) as [[] tm].
    - split; [| run_simpl; lia].
      split; [exact Hlog |]. split; [exact Hall |].
      run_simpl. rewrite length_app. simpl. lia.
    - split; [| run_simpl; lia].
      apply settled_all_continued; run_simpl; auto.
      rewrite length_app. simpl. lia. }
  assert (Hrefuse : forall a,
             let r :=
               mkRunResult
                 (inr match error a with
                      | Some e => ThrowError e
                      | None => ThrowError RetryCancelledError
                      end)
                 (Run.emit match error a with
                           | Some _ => EvFailure
                           | None => EvCancelled
                           end a None (attempt =? maxAttempts)
                    (Run.push a (Run.setCircuitBreaker cb st)))
                 ExitPreCheck in
             settled r /\
             (Run.invocations (final r) <= S (Run.invocations st))%nat).
  { intros a. split; [| run_simpl; lia].
    apply settled_all_continued; run_simpl; auto.
    rewrite length_app. simpl. lia. }
  destruct sp, rec as [a|], dl as [d|];
    try exact Hgo; try apply Hrefuse;
    destruct (Num.truthy d && Num.gt d (ofZ 0))%bool;
    try exact Hgo; apply Hwait.
Qed.

Lemma retryLoop_settled (remaining : nat) (attempt : Z) (st : Run.t) :
  steady st ->
  settled (retryLoop random parseDate fn maxAttempts policy classifier
                     combinedSignal remaining attempt st) /\
  (Run.invocations
     (final (retryLoop random parseDate fn maxAttempts policy classifier
                       combinedSignal remaining attempt st))
   <= Run.invocations st + remaining)%nat.
Proof.
  revert attempt st.
  induction remaining as [|remaining IH]; intros attempt st Hst.
  - simpl. split; [| lia].
    destruct Hst as (Hlog & Hall & Hlen).
    apply settled_all_continued; run_simpl; auto. lia.
  - simpl. pose proof (@iteration_step attempt st Hst) as Hit.
    destruct (iteration _ _ _ _ _ _ _ _ _) as [st' | r].
    + destruct Hit as [Hst' Hle].
      destruct (IH (attempt + 1) st' Hst') as [Hset Hle'].
      split; [exact Hset | lia].
    + destruct Hit as [Hset Hle]. split; [exact Hset | lia].
Qed.

(** Every record the loop appends carries the loop counter, which
    [validateAttemptNumber] accepts: the record constructors never throw. *)

Lemma performPreChecks_numbered (attempt : Z)
    (cb : option CircuitBreaker.t) (tr : option RateLimitTracker.t)
    (now : Z) (a : RetryAttempt) :
  1 <= attempt ->
  PreCheck.attemptRecord (fst (performPreChecks attempt combinedSignal cb tr now))
  = Some a ->
  numbered a.
Proof.
  intros Hone. unfold performPreChecks, numbered.
  destruct (aborted combinedSignal now).
  - simpl. intros H. injection H as <-. now apply validateAttemptNumber_loop.
  - destruct cb as [c|].
    + destruct (CircuitBreaker.canExecute now c) as [[] c'];
        destruct tr as [t|];
        try destruct (RateLimitTracker.isRateLimited now t);
        simpl; intros H; try discriminate H;
        injection H as <-; now apply validateAttemptNumber_loop.
    + destruct tr as [t|];
        try destruct (RateLimitTracker.isRateLimited now t);
        simpl; intros H; try discriminate H;
        injection H as <-; now apply validateAttemptNumber_loop.
Qed.

Lemma afterAttempt_numbered (attempt : Z) (a : AttemptResult.t) (st : Run.t) :
  1 <= attempt ->
  numbered (AttemptResult.attemptRecord a) ->
  Forall numbered (Run.attempts st) ->
  match afterAttempt maxAttempts combinedSignal attempt a st with
  | Next st' => Forall numbered (Run.attempts st')
  | Stop r => Forall numbered (Run.attempts (final r))
  end.
Proof.
  intros Hone Ha Hst.
  assert (Hc : forall now,
             numbered (createRetryAttemptFailure attempt RetryCancelledError
                                                 Unknown (ofZ 0) now))
    by (intros now; now apply validateAttemptNumber_loop).
  unfold afterAttempt.
  repeat match goal with
         | |- context [if ?c then _ else _] => destruct c
         | |- context [match AttemptResult.failureDomain a with _ => _ end] =>
             destruct (AttemptResult.failureDomain a)
         | |- context [match AttemptResult.delay a with _ => _ end] =>
             destruct (AttemptResult.delay a)
         | |- context [let '(_, _) := ?p in _] => destruct p
         end;
    run_simpl; rewrite ?Forall_app; repeat split; auto.
Qed.

Lemma iteration_numbered (attempt : Z) (st : Run.t) :
  1 <= attempt ->
  Forall numbered (Run.attempts st) ->
  match iteration random parseDate fn maxAttempts policy classifier
                  combinedSignal attempt st with
  | Next st' => Forall numbered (Run.attempts st')
  | Stop r => Forall numbered (Run.attempts (final r))
  end.
Proof.
  intros Hone Hst.
  assert (Hgo : forall st0,
             Run.attempts st0 = Run.attempts st ->
             match attemptStep random parseDate fn maxAttempts policy
                               classifier combinedSignal attempt st0 with
             | Next st' => Forall numbered (Run.attempts st')
             | Stop r => Forall numbered (Run.attempts (final r))
             end).
  { intros st0 Hsame. unfold attemptStep.
    destruct (fn (Run.invocations st0)) as [outcome' duration].
    destruct (executeAttempt _ _ _ _ _ _ _ _ _ _) as [[a cb] tr] eqn:He.
    apply afterAttempt_numbered; [exact Hone | | run_simpl; now rewrite Hsame].
    pose proof (executeAttempt_record random parseDate classifier policy
                  outcome' (Run.invocations st0) attempt
                  (Run.circuitBreaker
                     (Run.setNow (Run.now st0 + Z.max 0 duration) st0))
                  (Run.rateLimitTracker
                     (Run.setNow (Run.now st0 + Z.max 0 duration) st0))
                  (Run.now (Run.setNow (Run.now st0 + Z.max 0 duration) st0)))
      as [Hatt _].
    rewrite He in Hatt. simpl in Hatt.
    unfold numbered. rewrite Hatt. now apply validateAttemptNumber_loop. }
  unfold iteration.
  pose proof (@performPreChecks_numbered attempt (Run.circuitBreaker st)
                (Run.rateLimitTracker st) (Run.now st)) as Hpre.
  destruct (performPreChecks _ _ _ _ _) as [[sp rec dl] cb].
  cbn [PreCheck.shouldProceed PreCheck.attemptRecord PreCheck.delay fst] in *.
  destruct sp, rec as [a|], dl as [d|];
    try (apply Hgo; reflexivity);
    try (run_simpl; rewrite Forall_app; split; auto; fail);
    destruct (Num.truthy d && Num.gt d (ofZ 0))%bool;
    try (apply Hgo; reflexivity);
    destruct (sleep d combinedSignal _) as [[] tm];
    run_simpl; rewrite Forall_app; split; auto.
Qed.

Lemma retryLoop_numbered (remaining : nat) (attempt : Z) (st : Run.t) :
  1 <= attempt ->
  Forall numbered (Run.attempts st) ->
  Forall numbered
    (Run.attempts
       (final (retryLoop random parseDate fn maxAttempts policy classifier
                         combinedSignal remaining attempt st))).
Proof.
  revert attempt st.
  induction remaining as [|remaining IH]; intros attempt st Hone Hst.
  - exact Hst.
  - simpl. pose proof (@iteration_numbered attempt st Hone Hst) as Hit.
    destruct (iteration _ _ _ _ _ _ _ _ _) as [st' | r].
    + apply IH; [lia | exact Hit].
    + exact Hit.
Qed.

End LoopFacts.

(** Every run of [retry] ends settled, after at most maxAttempts
    invocations. *)
Lemma retry_settled (random : nat -> Q) (parseDate : string -> option Z)
    (params : RetryParams.t) (start : Z) :
  Settled random parseDate (effectiveClassifier params) (effectivePolicy params)
          (RetryParams.fn params) (retry random parseDate params start) /\
  (Run.invocations (final (retry random parseDate params start))
   <= Z.to_nat (Num.toMs (effectiveMaxAttempts params)))%nat.
Proof.
  unfold retry.
  destruct (validateRetryOptions _ _) as [rejection|].
  - split; [| apply Nat.le_0_l].
    split; [| split]; run_simpl.
    + intros i r H. destruct i; discriminate.
    + intros i r H. destruct i; discriminate.
    + reflexivity.
  - apply (@retryLoop_settled random parseDate (RetryParams.fn params)
             (Num.toMs (effectiveMaxAttempts params))
             (effectivePolicy params) (effectiveClassifier params)
             (runSignal params start)
             (Z.to_nat (Num.toMs (effectiveMaxAttempts params))) 1
             (initialRun params start)).
    split; [| split]; unfold initialRun; run_simpl.
    + intros i r H. destruct i; discriminate.
    + constructor.
    + reflexivity.
Qed.

Lemma attemptDelay_declined (d : FailureDomain)
    (meta : option ResponseMetadata) (p : option number) (rnd : Q) :
  declines p -> overrideApplies d meta = false ->
  attemptDelay d meta p rnd = None.
Proof.
  intros Hp Hov. unfold attemptDelay.
  assert (Hvalid :
            match p with
            | Some x =>
                if (negb (Num.isFinite x) || Num.lt x (ofZ 0))%bool
                then None else Some x
            | None => None
            end = None).
  { destruct p as [x|]; [| reflexivity].
    destruct Hp as [Hf | Hl].
    - now rewrite Hf.
    - rewrite Hl. now rewrite orb_true_r. }
  rewrite Hvalid.
  destruct d; try reflexivity.
  destruct meta as [m|]; [| reflexivity].
  simpl in Hov. destruct (retryAfter m) as [ra|]; [| reflexivity].
  now rewrite Hov.
Qed.

(** ** Runs *)

(** C1. In every run the length of the final attempt history is the number
    of invocations of the operation, plus one record for each rate-limit
    wait taken in a pre-check, plus one closing record when the run ends on
    a refused pre-check (cancellation or circuit breaker) or on a cancelled
    inter-attempt sleep; and the operation is invoked at most maxAttempts
    times. *)
Theorem retry_history_length (random : nat -> Q)
    (parseDate : string -> option Z) (params : RetryParams.t) (start : Z) :
  let r := retry random parseDate params start in
  List.length (Run.attempts (final r))
  = (Run.invocations (final r) + Run.waits (final r)
     + closingRecords (exit r))%nat /\
  (Run.invocations (final r)
   <= Z.to_nat (Num.toMs (effectiveMaxAttempts params)))%nat.
Proof.
  intros r. subst r.
  destruct (retry_settled random parseDate params start)
    as [(_ & _ & Hlen) Hle].
  split; assumption.
Qed.

(** C1, as stated, fails: behind a tracker that reports exhaustion once,
    an operation that succeeds at its only invocation leaves a history of
    two attempts. *)
Lemma rateLimitedOnce_history_longer :
  List.length (Run.attempts (final (retry zeroDraws noDates rateLimitedOnce 0)))
  = 2%nat /\
  Run.invocations (final (retry zeroDraws noDates rateLimitedOnce 0)) = 1%nat /\
  List.length (Run.attempts (final (retry zeroDraws noDates rateLimitedOnce 0)))
  <> Run.invocations (final (retry zeroDraws noDates rateLimitedOnce 0)).
Proof. vm_compute. repeat split; discriminate. Qed.

(** C3. When an invocation of the operation resolves with undefined, the
    run does not return a success result: it throws the generic
    "Unknown error", and that invocation is the last one. *)
Theorem retry_undefined_result (random : nat -> Q)
    (parseDate : string -> option Z) (params : RetryParams.t) (start : Z)
    (k : nat) :
  let r := retry random parseDate params start in
  (k < Run.invocations (final r))%nat ->
  fst (RetryParams.fn params k) = Resolved VUndefined ->
  outcome r = inr (ThrowError (newError "Unknown error")) /\
  Run.invocations (final r) = S k /\
  exit r = ExitNoRetry.
Proof.
  intros r Hk Hfn. subst r.
  destruct (retry_settled random parseDate params start)
    as [(Hlog & Hstop & _) _].
  destruct (nth_error (Run.calls (final (retry random parseDate params start))) k)
    as [a|] eqn:Hnth.
  2:{ apply nth_error_None in Hnth. unfold Run.invocations in Hk. lia. }
  destruct (Hlog k a Hnth) as (attempt & cb & tr & now & Ha).
  rewrite Hfn in Ha.
  assert (Hcont : continued a = false) by (now subst a).
  destruct (Hstop k a Hnth Hcont) as (Hinv & Hout & Hexit).
  rewrite Hout, Hexit. subst a. auto.
Qed.

Lemma retry_undefined_result_witness :
  outcome (retry zeroDraws noDates resolvesUndefined 0)
  = inr (ThrowError (newError "Unknown error")) /\
  Run.invocations (final (retry zeroDraws noDates resolvesUndefined 0)) = 1%nat.
Proof.
  assert (Hk : (0 < Run.invocations
                      (final (retry zeroDraws noDates resolvesUndefined 0)))%nat)
    by (vm_compute; constructor).
  pose proof (@retry_undefined_result zeroDraws noDates resolvesUndefined 0
                0%nat Hk eq_refl) as H.
  split.
  - exact (proj1 H).
  - exact (proj1 (proj2 H)).
Defined.

(** C4. When the failure of an attempt is classified Permanent, that
    attempt is the last invocation of the run, whatever maxAttempts is, and
    the run throws the error of that attempt: the very error the operation
    threw when it threw an Error, never an exhaustion error. *)
Theorem retry_permanent_stops (random : nat -> Q)
    (parseDate : string -> option Z) (params : RetryParams.t) (start : Z)
    (k : nat) (a : AttemptResult.t) :
  let r := retry random parseDate params start in
  nth_error (Run.calls (final r)) k = Some a ->
  AttemptResult.failureDomain a = Permanent ->
  exists thrown,
    fst (RetryParams.fn params k) = Rejected thrown /\
    outcome r = inr (ThrowError (caughtError thrown)) /\
    (forall e, thrown = ThrownError e -> outcome r = inr (ThrowError e)) /\
    Run.invocations (final r) = S k /\
    exit r = ExitNoRetry.
Proof.
  intros r Hnth Hperm. subst r.
  destruct (retry_settled random parseDate params start)
    as [(Hlog & Hstop & _) _].
  destruct (Hlog k a Hnth) as (attempt & cb & tr & now & Ha).
  destruct (fst (RetryParams.fn params k)) as [v | thrown] eqn:Hfn.
  - subst a. discriminate Hperm.
  - exists thrown.
    destruct (executeAttempt_rejected random parseDate
                (effectiveClassifier params) (effectivePolicy params)
                thrown k attempt cb tr now) as (Hs & He & Hd & _).
    rewrite <- Ha in Hs, He, Hd.
    assert (Hcont : continued a = false).
    { unfold continued. rewrite Hperm. simpl. now rewrite andb_false_r. }
    destruct (Hstop k a Hnth Hcont) as (Hinv & Hout & Hexit).
    assert (Hthrow : outcome (retry random parseDate params start)
                     = inr (ThrowError (caughtError thrown))).
    { rewrite Hout. unfold stopOutcome. now rewrite Hs, He. }
    split; [reflexivity |]. split; [exact Hthrow |].
    split; [intros e ->; exact Hthrow |].
    split; [now rewrite Hinv |].
    rewrite Hexit. unfold stopExit. now rewrite Hs.
Qed.

Lemma retry_permanent_stops_witness :
  outcome (retry zeroDraws noDates badRequest 0)
  = inr (ThrowError badRequestError) /\
  Run.invocations (final (retry zeroDraws noDates badRequest 0)) = 1%nat.
Proof.
  destruct (nth_error
              (Run.calls (final (retry zeroDraws noDates badRequest 0))) 0)
    as [a|] eqn:Hnth; [| vm_compute in Hnth; discriminate Hnth].
  assert (Hperm : AttemptResult.failureDomain a = Permanent).
  { vm_compute in Hnth. injection Hnth as <-. reflexivity. }
  destruct (@retry_permanent_stops zeroDraws noDates badRequest 0 0%nat a
              Hnth Hperm) as (thrown & Hfn & _ & Herr & Hinv & _).
  split.
  - apply Herr. simpl in Hfn. now injection Hfn as <-.
  - exact Hinv.
Defined.

(** C6. When an attempt fails in a domain other than Permanent, the policy
    answers null or a value that is not a finite non-negative number, and
    the Retry-After override does not apply (the domain is not rate-limit,
    or the metadata has no Retry-After value other than 0), the engine
    takes the delay to be null and does not retry: the run throws the
    error of that attempt and that invocation is the last one, whatever
    attempts remain. *)
Theorem retry_declined_stops (random : nat -> Q)
    (parseDate : string -> option Z) (params : RetryParams.t) (start : Z)
    (k : nat) (a : AttemptResult.t) (thrown : Thrown) :
  let r := retry random parseDate params start in
  let e := caughtError thrown in
  let record := AttemptResult.attemptRecord a in
  let meta := extractResponseMetadata parseDate e (timestamp record) in
  let d := effectiveClassifier params e meta in
  nth_error (Run.calls (final r)) k = Some a ->
  fst (RetryParams.fn params k) = Rejected thrown ->
  d <> Permanent ->
  declines (effectivePolicy params (attempt record) d e (random (2 * k)%nat)) ->
  overrideApplies d meta = false ->
  AttemptResult.delay a = None /\
  outcome r = inr (ThrowError e) /\
  Run.invocations (final r) = S k /\
  exit r = ExitNoRetry.
Proof.
  intros r e record meta d Hnth Hfn Hd Hdecl Hov.
  subst r.
  destruct (retry_settled random parseDate params start)
    as [(Hlog & Hstop & _) _].
  destruct (Hlog k a Hnth) as (attempt' & cb & tr & now & Ha).
  rewrite Hfn in Ha.
  destruct (executeAttempt_record random parseDate
              (effectiveClassifier params) (effectivePolicy params)
              (Rejected thrown) k attempt' cb tr now) as (Hatt & Htime).
  destruct (executeAttempt_rejected random parseDate
              (effectiveClassifier params) (effectivePolicy params)
              thrown k attempt' cb tr now) as (Hs & He & _ & Hdl).
  rewrite <- Ha in Hs, He, Hdl, Hatt, Htime.
  subst record meta d e. rewrite Hatt, Htime in *.
  assert (Hnone : AttemptResult.delay a = None).
  { rewrite Hdl.
    rewrite (@attemptDelay_declined _ _ _ _ Hdecl Hov).
    now destruct (effectiveClassifier params _ _). }
  assert (Hcont : continued a = false).
  { unfold continued. rewrite Hnone. apply andb_false_r. }
  destruct (Hstop k a Hnth Hcont) as (Hinv & Hout & Hexit).
  repeat split; auto.
  - rewrite Hout. unfold stopOutcome. now rewrite Hs, He.
  - rewrite Hexit. unfold stopExit. now rewrite Hs.
Qed.

Lemma retry_declined_stops_witness :
  outcome (retry zeroDraws noDates decliningPolicy 0)
  = inr (ThrowError timeoutError) /\
  Run.invocations (final (retry zeroDraws noDates decliningPolicy 0)) = 1%nat.
Proof.
  destruct (nth_error
              (Run.calls (final (retry zeroDraws noDates decliningPolicy 0))) 0)
    as [a|] eqn:Hnth; [| vm_compute in Hnth; discriminate Hnth].
  assert (Ha : AttemptResult.attemptRecord a
               = createRetryAttemptFailure 1 timeoutError Transient (ofZ 0) 5).
  { vm_compute in Hnth. injection Hnth as <-. reflexivity. }
  assert (Hfn : fst (RetryParams.fn decliningPolicy 0)
                = Rejected (ThrownError timeoutError)) by reflexivity.
  destruct (@retry_declined_stops zeroDraws noDates decliningPolicy 0 0%nat a
              (ThrownError timeoutError) Hnth Hfn)
    as (_ & Hout & Hinv & _).
  - rewrite Ha. vm_compute. discriminate.
  - rewrite Ha. vm_compute. exact I.
  - rewrite Ha. reflexivity.
  - split; [exact Hout | exact Hinv].
Defined.

(** C6, as stated, fails: a 429 response with Retry-After is retried even
    though the policy answers null for it. *)
Lemma tooManyRequests_retried :
  fst (RetryParams.fn tooManyRequests 0)
  = Rejected (ThrownError tooManyRequestsError) /\
  effectiveClassifier tooManyRequests tooManyRequestsError
    (extractResponseMetadata noDates tooManyRequestsError 5) = RateLimit /\
  effectivePolicy tooManyRequests 1 RateLimit tooManyRequestsError
    (zeroDraws 0%nat) = None /\
  Run.invocations (final (retry zeroDraws noDates tooManyRequests 0)) = 2%nat /\
  outcome (retry zeroDraws noDates tooManyRequests 0)
  = inr (ThrowExhausted (ofZ 2) (Some tooManyRequestsError) (Some RateLimit)).
Proof. vm_compute. repeat split. Qed.

(** The record constructors are never handed an attempt number they would
    reject. *)
Lemma retry_attempts_numbered (random : nat -> Q)
    (parseDate : string -> option Z) (params : RetryParams.t) (start : Z) :
  Forall numbered (Run.attempts (final (retry random parseDate params start))).
Proof.
  unfold retry.
  destruct (validateRetryOptions _ _) as [rejection|].
  - constructor.
  - apply retryLoop_numbered; [lia | constructor].
Qed.

(** A rate-limit wait uses up the loop counter of its iteration: with a
    single attempt allowed, the run ends at the statement after the loop
    without having invoked the operation. *)
Lemma rateLimitedSingleAttempt_never_invokes :
  Run.invocations (final (retry zeroDraws noDates rateLimitedSingleAttempt 0))
  = 0%nat /\
  exit (retry zeroDraws noDates rateLimitedSingleAttempt 0) = ExitLoopEnd /\
  outcome (retry zeroDraws noDates rateLimitedSingleAttempt 0)
  = inr (ThrowExhausted (ofZ 1) None None).
Proof. vm_compute. repeat split. Qed.

(** ** Scenarios *)

(** The operation fails twice with a transient error, then succeeds, with
    three attempts allowed: the value is returned, the history has three
    attempts and two retries are counted. *)
Lemma scenario_A :
  match outcome (retry zeroDraws noDates failsTwice 0) with
  | inl res =>
      value res = VStr "done" /\
      List.length (resultAttempts res) = 3%nat /\
      totalRetries (metrics res) = 2
  | inr _ => False
  end.
Proof. vm_compute. repeat split. Qed.

(** The operation always fails with a 400 response, with five attempts
    allowed: one invocation, and the error thrown is the operation's. *)
Lemma scenario_B :
  Run.invocations (final (retry zeroDraws noDates badRequest 0)) = 1%nat /\
  outcome (retry zeroDraws noDates badRequest 0)
  = inr (ThrowError badRequestError).
Proof. vm_compute. repeat split. Qed.

(** The operation always fails, with three attempts allowed: an exhaustion
    error after three invocations, carrying the last error. *)
Lemma scenario_C :
  Run.invocations (final (retry zeroDraws noDates alwaysFails 0)) = 3%nat /\
  outcome (retry zeroDraws noDates alwaysFails 0)
  = inr (ThrowExhausted (ofZ 3) (Some flakyError) (Some Transient)).
Proof. vm_compute. repeat split. Qed.

(** The signal aborts during the sleep after the first attempt: the run is
    cancelled and the operation is not invoked again. *)
Lemma scenario_D :
  Run.invocations (final (retry zeroDraws noDates cancelledWhileSleeping 0))
  = 1%nat /\
  outcome (retry zeroDraws noDates cancelledWhileSleeping 0)
  = inr (ThrowError RetryCancelledError) /\
  exit (retry zeroDraws noDates cancelledWhileSleeping 0) = ExitSleepCancelled.
Proof. vm_compute. repeat split. Qed.

(** * Further properties of the code *)

(** ** Circuit breaker: sequences of calls *)

Lemma CircuitState_eqb_eq (a b : CircuitState) :
  CircuitState_eqb a b = true <-> a = b.
Proof. destruct a, b; simpl; split; intros H; congruence. Qed.

Lemma breakerCalls_snoc (cs : list BreakerCall) (c : BreakerCall)
    (cb : CircuitBreaker.t) :
  breakerCalls (cs ++ [c]) cb = breakerCall c (breakerCalls cs cb).
Proof. unfold breakerCalls. now rewrite fold_left_app. Qed.

Ltac breaker_cases :=
  repeat match goal with
         | |- context [if ?c then _ else _] => destruct c eqn:?
         | |- context [match CircuitBreaker.state ?b with _ => _ end] =>
             destruct (CircuitBreaker.state b) eqn:?
         end.

Lemma breakerSound_call (p : CircuitBreakerParams) (c : BreakerCall)
    (cb : CircuitBreaker.t) :
  breakerSound p cb -> breakerSound p (breakerCall c cb).
Proof.
  destruct cb as [q st fc sc lt nf]. unfold breakerSound. simpl.
  intros (-> & Hf & Hs & Ht & Hz & Hh).
  destruct st;
    try (assert (sc = 0) by (apply Hz; discriminate));
    try (assert (exists t, lt = Some t) by (apply Ht; discriminate));
    try (assert (1 <= successThreshold p -> sc < successThreshold p)
          by (intros; apply Hh; auto));
    clear Ht Hz Hh;
    destruct c as [now | | now |];
    unfold breakerCall, CircuitBreaker.canExecute, CircuitBreaker.recordSuccess,
      CircuitBreaker.recordFailure, CircuitBreaker.reset,
      CircuitBreaker.transitionTo, CircuitBreaker.setSuccessCount,
      CircuitBreaker.setFailureCount, CircuitBreaker.setLastFailureTime;
    simpl;
    repeat match goal with
           | |- context [if ?c then _ else _] => destruct c eqn:?; simpl
           end;
    repeat match goal with
           | H : (_ <=? _) = true |- _ => apply Z.leb_le in H
           | H : (_ <=? _) = false |- _ => apply Z.leb_gt in H
           end;
    repeat split; intros; try lia; try congruence; eauto.
Qed.

(** X1. Whatever calls are made on a breaker built from given parameters,
    its counters never go below 0, a breaker that is not closed has a time
    of last failure, the success counter is 0 outside the half-open state
    and, for a success threshold of at least 1, stays below it while
    half-open. *)
Theorem breaker_calls_sound (p : CircuitBreakerParams)
    (cs : list BreakerCall) :
  breakerSound p (breakerCalls cs (CircuitBreaker.new p)).
Proof.
  induction cs as [|c cs IH] using rev_ind.
  - unfold breakerSound. simpl. repeat split; auto; try lia; congruence.
  - rewrite breakerCalls_snoc. now apply breakerSound_call.
Qed.

Lemma distinctNeighbours_snoc (l : list CircuitState) (x : CircuitState) :
  distinctNeighbours (l ++ [x])
  = (distinctNeighbours l &&
     match l with
     | [] => true
     | _ => negb (CircuitState_eqb (last l Closed) x)
     end)%bool.
Proof.
  induction l as [|a l IH]; [reflexivity |].
  destruct l as [|b l].
  - simpl. now rewrite andb_true_r.
  - change ((a :: b :: l) ++ [x]) with (a :: (b :: l) ++ [x]).
    change (distinctNeighbours (a :: (b :: l) ++ [x]))
      with (negb (CircuitState_eqb a b)
            && distinctNeighbours ((b :: l) ++ [x]))%bool.
    rewrite IH.
    change (distinctNeighbours (a :: b :: l))
      with (negb (CircuitState_eqb a b) && distinctNeighbours (b :: l))%bool.
    change (last (a :: b :: l) Closed) with (last (b :: l) Closed).
    now rewrite andb_assoc.
Qed.

Lemma last_snoc (A : Type) (l : list A) (x d : A) : last (l ++ [x]) d = x.
Proof.
  induction l as [|a l IH]; [reflexivity |].
  simpl. destruct (l ++ [x]) eqn:E; [destruct l; discriminate | exact IH].
Qed.

Lemma logAgrees_transitionTo (s : CircuitState) (cb : CircuitBreaker.t) :
  logAgrees cb -> logAgrees (CircuitBreaker.transitionTo s cb).
Proof.
  intros [Hlast Hdist]. unfold logAgrees, CircuitBreaker.transitionTo.
  destruct (CircuitState_eqb (CircuitBreaker.state cb) s) eqn:E;
    cbn [negb CircuitBreaker.state CircuitBreaker.notified].
  - auto.
  - change (Closed :: CircuitBreaker.notified cb ++ [s])
      with ((Closed :: CircuitBreaker.notified cb) ++ [s]).
    rewrite last_snoc. split; [reflexivity |].
    rewrite distinctNeighbours_snoc, Hdist, Hlast, E. reflexivity.
Qed.

Lemma logAgrees_frame (cb cb' : CircuitBreaker.t) :
  CircuitBreaker.state cb' = CircuitBreaker.state cb ->
  CircuitBreaker.notified cb' = CircuitBreaker.notified cb ->
  logAgrees cb -> logAgrees cb'.
Proof. unfold logAgrees. intros -> ->. auto. Qed.

Lemma logAgrees_call (c : BreakerCall) (cb : CircuitBreaker.t) :
  isReset c = false -> logAgrees cb -> logAgrees (breakerCall c cb).
Proof.
  intros Hc H. destruct c as [now | | now |]; try discriminate Hc;
    unfold breakerCall.
  - unfold CircuitBreaker.canExecute.
    destruct (CircuitBreaker.state cb); try exact H.
    destruct (_ && _)%bool; cbn [snd]; [| exact H].
    now apply logAgrees_transitionTo.
  - unfold CircuitBreaker.recordSuccess.
    destruct (CircuitBreaker.state cb); try exact H.
    destruct (_ <=? _); [| exact H].
    eapply logAgrees_frame; [reflexivity | reflexivity |].
    apply logAgrees_transitionTo. exact H.
  - unfold CircuitBreaker.recordFailure.
    assert (H2 : logAgrees
                   (CircuitBreaker.setFailureCount
                      (CircuitBreaker.failureCount
                         (CircuitBreaker.setLastFailureTime (Some now) cb) + 1)
                      (CircuitBreaker.setLastFailureTime (Some now) cb)))
      by exact H.
    destruct (CircuitBreaker.state _); try exact H2.
    + destruct (_ <=? _); [| exact H2]. now apply logAgrees_transitionTo.
    + eapply logAgrees_frame; [reflexivity | reflexivity |].
      now apply logAgrees_transitionTo.
Qed.

(** X2. The state-change callback is told every change and nothing else:
    as long as [reset] is not called, the last state it was told is the
    current state and it is never told the state the breaker was already
    in. *)
Theorem breaker_notifications (p : CircuitBreakerParams)
    (cs : list BreakerCall) :
  forallb (fun c => negb (isReset c)) cs = true ->
  logAgrees (breakerCalls cs (CircuitBreaker.new p)).
Proof.
  induction cs as [|c cs IH] using rev_ind; intros Hno.
  - split; reflexivity.
  - rewrite forallb_app in Hno. apply andb_prop in Hno as [Hcs Hc].
    simpl in Hc. rewrite andb_true_r in Hc. apply negb_true_iff in Hc.
    rewrite breakerCalls_snoc. apply logAgrees_call; auto.
Qed.

Lemma breaker_notifications_witness :
  CircuitBreaker.notified
    (breakerCalls [CallRecordFailure 10; CallRecordFailure 20;
                   CallCanExecute 1020; CallRecordSuccess]
                  (CircuitBreaker.new sampleBreakerParams))
  = [Open; HalfOpen; Closed] /\
  logAgrees
    (breakerCalls [CallRecordFailure 10; CallRecordFailure 20;
                   CallCanExecute 1020; CallRecordSuccess]
                  (CircuitBreaker.new sampleBreakerParams)).
Proof.
  split; [reflexivity |].
  exact (@breaker_notifications sampleBreakerParams
           [CallRecordFailure 10; CallRecordFailure 20;
            CallCanExecute 1020; CallRecordSuccess] eq_refl).
Defined.

Lemma recordFailure_step (t : Z) (cb : CircuitBreaker.t) :
  CircuitBreaker.state cb <> HalfOpen ->
  let cb' := CircuitBreaker.recordFailure t cb in
  CircuitBreaker.params cb' = CircuitBreaker.params cb /\
  CircuitBreaker.failureCount cb' = CircuitBreaker.failureCount cb + 1 /\
  CircuitBreaker.lastFailureTime cb' = Some t /\
  CircuitBreaker.state cb'
  = match CircuitBreaker.state cb with
    | Closed =>
        if failureThreshold (CircuitBreaker.params cb) <=?
           CircuitBreaker.failureCount cb + 1
        then Open else Closed
    | other => other
    end.
Proof.
  destruct cb as [q st fc sc lt nf]. simpl. intros Hst.
  unfold CircuitBreaker.recordFailure, CircuitBreaker.transitionTo. simpl.
  destruct st; try congruence; simpl.
  - destruct (failureThreshold q <=? fc + 1); simpl; auto.
  - auto.
Qed.

Lemma failures_in_a_row (ts : list Z) (cb : CircuitBreaker.t) :
  CircuitBreaker.state cb = Closed ->
  let b := breakerCalls (map CallRecordFailure ts) cb in
  CircuitBreaker.params b = CircuitBreaker.params cb /\
  CircuitBreaker.failureCount b
  = CircuitBreaker.failureCount cb + Z.of_nat (List.length ts) /\
  (ts <> [] -> CircuitBreaker.lastFailureTime b = Some (last ts 0)) /\
  CircuitBreaker.state b
  = match ts with
    | [] => Closed
    | _ =>
        if failureThreshold (CircuitBreaker.params cb) <=?
           CircuitBreaker.failureCount cb + Z.of_nat (List.length ts)
        then Open else Closed
    end.
Proof.
  intros Hclosed.
  induction ts as [|t ts IH] using rev_ind.
  - simpl. repeat split; auto; [lia | congruence].
  - destruct IH as (Hp & Hc & _ & Hs).
    rewrite map_app. cbn [map]. rewrite breakerCalls_snoc.
    cbn [breakerCall]. cbv zeta.
    set (b := breakerCalls (map CallRecordFailure ts) cb) in *.
    assert (Hnh : CircuitBreaker.state b <> HalfOpen).
    { rewrite Hs. destruct ts; [discriminate |].
      destruct (_ <=? _); discriminate. }
    destruct (@recordFailure_step t b Hnh) as (Hp' & Hc' & Hl' & Hs').
    rewrite Hp', Hc', Hl', Hs', Hs, Hp, Hc, length_app, last_snoc.
    replace (Z.of_nat (List.length ts + List.length [t]))
      with (Z.of_nat (List.length ts) + 1) by (simpl; lia).
    repeat split; try lia.
    destruct (ts ++ [t]) eqn:E; [destruct ts; discriminate |].
    destruct ts as [|t0 ts0].
    + simpl. rewrite Z.add_0_r. reflexivity.
    + repeat match goal with
             | |- context [?x <=? ?y] => destruct (Z.leb_spec x y)
             end; try reflexivity; lia.
Qed.

(** X3. Failures recorded in a row on a closed breaker add up: after
    them the failure counter has grown by their number, the time of last
    failure is that of the last one, and the breaker is open exactly when
    the counter has reached failureThreshold. *)
Theorem breaker_consecutive_failures (ts : list Z) (cb : CircuitBreaker.t) :
  CircuitBreaker.state cb = Closed ->
  ts <> [] ->
  let cb' := breakerCalls (map CallRecordFailure ts) cb in
  CircuitBreaker.failureCount cb'
  = CircuitBreaker.failureCount cb + Z.of_nat (List.length ts) /\
  CircuitBreaker.lastFailureTime cb' = Some (last ts 0) /\
  CircuitBreaker.state cb'
  = if failureThreshold (CircuitBreaker.params cb) <=?
       CircuitBreaker.failureCount cb + Z.of_nat (List.length ts)
    then Open else Closed.
Proof.
  intros Hclosed Hne cb'. subst cb'.
  destruct (@failures_in_a_row ts cb Hclosed) as (_ & Hc & Hl & Hs).
  split; [exact Hc |]. split; [now apply Hl |].
  rewrite Hs. destruct ts; [congruence | reflexivity].
Qed.

Lemma breaker_consecutive_failures_witness :
  CircuitBreaker.failureCount
    (breakerCalls (map CallRecordFailure threeFailures)
                  (CircuitBreaker.new sampleBreakerParams)) = 3 /\
  CircuitBreaker.state
    (breakerCalls (map CallRecordFailure threeFailures)
                  (CircuitBreaker.new sampleBreakerParams)) = Open.
Proof.
  assert (Hne : threeFailures <> []) by discriminate.
  destruct (@breaker_consecutive_failures threeFailures
              (CircuitBreaker.new sampleBreakerParams) eq_refl Hne)
    as (Hc & _ & Hs).
  split; [exact Hc | exact Hs].
Defined.

(** ** Rate-limit tracker *)

Lemma epGet_epSet (o : list (string * EndpointState)) (k k' : string)
    (v : EndpointState) :
  epGet (epSet o k v) k' = if String.eqb k k' then Some v else epGet o k'.
Proof.
  induction o as [|[k0 v0] o IH]; simpl.
  - reflexivity.
  - destruct (String.eqb_spec k0 k) as [-> | Hne]; simpl.
    + destruct (String.eqb_spec k k'); reflexivity.
    + rewrite IH. destruct (String.eqb_spec k0 k') as [-> | Hne'];
        [| reflexivity].
      destruct (String.eqb_spec k k'); [congruence | reflexivity].
Qed.

(** X4. Decrementing never takes the remaining count below 0: n >= 1
    decrements leave max(0, remaining - n) and change nothing else. *)
Theorem decrement_iterated (n : nat) (s : RateLimitState) :
  (0 < n)%nat ->
  Nat.iter n RateLimitTracker.decrement (Some s)
  = Some (mkRateLimitState (Z.max 0 (remaining s - Z.of_nat n)) (resetAt s)
                           (limit s) (perEndpoint s)).
Proof.
  induction n as [|n IH]; [lia |]. intros _.
  destruct n as [|n].
  - simpl. reflexivity.
  - rewrite Nat.iter_succ, IH by lia.
    unfold RateLimitTracker.decrement. cbn [remaining resetAt limit perEndpoint].
    f_equal. f_equal. lia.
Qed.

Lemma decrement_iterated_witness :
  Nat.iter 5 RateLimitTracker.decrement (Some sampleRateLimitState)
  = Some (mkRateLimitState 0 60000 100 (perEndpoint sampleRateLimitState)).
Proof.
  apply (@decrement_iterated 5 sampleRateLimitState). lia.
Defined.

(** X5. A decrement for an endpoint that has an entry lowers that
    endpoint's counter only, not below 0: the global counter and the other
    endpoints keep their values. *)
Theorem decrementFor_endpoint (ep : string) (s : RateLimitState)
    (pe : list (string * EndpointState)) (e : EndpointState) :
  ep <> EmptyString ->
  perEndpoint s = Some pe ->
  epGet pe ep = Some e ->
  exists pe',
    RateLimitTracker.decrementFor (Some ep) (Some s)
    = Some (mkRateLimitState (remaining s) (resetAt s) (limit s) (Some pe')) /\
    epGet pe' ep
    = Some (mkEndpointState (Z.max 0 (epRemaining e - 1)) (epResetAt e)
                            (epLimit e)) /\
    (forall other, other <> ep -> epGet pe' other = epGet pe other).
Proof.
  intros Hne Hpe Hget.
  exists (epSet pe ep (mkEndpointState (Z.max 0 (epRemaining e - 1))
                                       (epResetAt e) (epLimit e))).
  split; [| split].
  - unfold RateLimitTracker.decrementFor. rewrite Hpe.
    destruct ep; [congruence |]. cbn [truthyStr]. now rewrite Hget.
  - rewrite epGet_epSet. now rewrite String.eqb_refl.
  - intros other Ho. rewrite epGet_epSet.
    destruct (String.eqb_spec ep other); congruence.
Qed.

Lemma decrementFor_endpoint_witness :
  exists pe',
    RateLimitTracker.decrementFor (Some "/users") (Some sampleRateLimitState)
    = Some (mkRateLimitState 2 60000 100 (Some pe')) /\
    epGet pe' "/users" = Some (mkEndpointState 0 30000 10) /\
    epGet pe' "/orders" = Some (mkEndpointState 5 30000 10).
Proof.
  destruct (@decrementFor_endpoint "/users" sampleRateLimitState
              [("/users", mkEndpointState 1 30000 10);
               ("/orders", mkEndpointState 5 30000 10)]
              (mkEndpointState 1 30000 10))
    as (pe' & H1 & H2 & H3); try reflexivity; try discriminate.
  exists pe'. split; [exact H1 |]. split; [exact H2 |].
  rewrite H3 by discriminate. reflexivity.
Defined.



Lemma parseInt_empty : parseInt EmptyString = None.
Proof. reflexivity. Qed.

Lemma parseHeader_present (hs : Headers) (name value : string) (n : Z) :
  objGet hs (toLowerCase name) = Some value ->
  parseInt value = Some n ->
  RateLimitTracker.parseHeader hs name = Some n.
Proof.
  intros Hget Hint. unfold RateLimitTracker.parseHeader. rewrite Hget.
  destruct value; [discriminate Hint | exact Hint].
Qed.

Lemma parseHeader_absent (hs : Headers) (name : string) :
  match objGet hs (toLowerCase name) with
  | Some value => parseInt value = None
  | None => True
  end ->
  RateLimitTracker.parseHeader hs name = None.
Proof.
  intros H. unfold RateLimitTracker.parseHeader.
  destruct (objGet hs (toLowerCase name)) as [value|]; [| reflexivity].
  destruct value; [reflexivity | exact H].
Qed.

(** X7. When the three rate-limit headers are present and parse as
    integers, an update without endpoint replaces the whole state, whatever
    it was: remaining and limit as given, the reset time converted from
    seconds to milliseconds, and no per-endpoint record. *)
Theorem updateFromHeaders_replaces (hs : Headers) (a b c : string)
    (rem lim reset : Z) (tr : RateLimitTracker.t) :
  objGet hs "x-ratelimit-remaining" = Some a -> parseInt a = Some rem ->
  objGet hs "x-ratelimit-limit" = Some b -> parseInt b = Some lim ->
  objGet hs "x-ratelimit-reset" = Some c -> parseInt c = Some reset ->
  RateLimitTracker.updateFromHeaders hs tr
  = Some (mkRateLimitState rem (reset * 1000) lim None) /\
  RateLimitTracker.updateFromHeadersFor hs None tr
  = RateLimitTracker.updateFromHeaders hs tr.
Proof.
  intros Ha Ha' Hb Hb' Hc Hc'.
  unfold RateLimitTracker.updateFromHeaders,
    RateLimitTracker.updateFromHeadersFor.
  rewrite (@parseHeader_present hs "x-ratelimit-remaining" a rem Ha Ha').
  rewrite (@parseHeader_present hs "x-ratelimit-limit" b lim Hb Hb').
  rewrite (@parseHeader_present hs "x-ratelimit-reset" c reset Hc Hc').
  split; reflexivity.
Qed.

Lemma updateFromHeaders_replaces_witness :
  RateLimitTracker.updateFromHeaders sampleRateLimitHeaders
    (Some sampleRateLimitState)
  = Some (mkRateLimitState 7 90000 50 None).
Proof.
  exact (proj1 (@updateFromHeaders_replaces sampleRateLimitHeaders
                  "7" "50" "90" 7 50 90 (Some sampleRateLimitState)
                  eq_refl eq_refl eq_refl eq_refl eq_refl eq_refl)).
Defined.

(** X8. With an endpoint and a per-endpoint record in the state, the same
    headers write that endpoint's entry only: the global counters and the
    other endpoints are unchanged. *)
Theorem updateFromHeadersFor_endpoint (hs : Headers) (a b c : string)
    (rem lim reset : Z) (ep : string) (s : RateLimitState)
    (pe : list (string * EndpointState)) :
  objGet hs "x-ratelimit-remaining" = Some a -> parseInt a = Some rem ->
  objGet hs "x-ratelimit-limit" = Some b -> parseInt b = Some lim ->
  objGet hs "x-ratelimit-reset" = Some c -> parseInt c = Some reset ->
  ep <> EmptyString ->
  perEndpoint s = Some pe ->
  exists pe',
    RateLimitTracker.updateFromHeadersFor hs (Some ep) (Some s)
    = Some (mkRateLimitState (remaining s) (resetAt s) (limit s) (Some pe')) /\
    epGet pe' ep = Some (mkEndpointState rem (reset * 1000) lim) /\
    (forall other, other <> ep -> epGet pe' other = epGet pe other).
Proof.
  intros Ha Ha' Hb Hb' Hc Hc' Hne Hpe.
  exists (epSet pe ep (mkEndpointState rem (reset * 1000) lim)).
  split; [| split].
  - unfold RateLimitTracker.updateFromHeadersFor.
    rewrite (@parseHeader_present hs "x-ratelimit-remaining" a rem Ha Ha').
    rewrite (@parseHeader_present hs "x-ratelimit-limit" b lim Hb Hb').
    rewrite (@parseHeader_present hs "x-ratelimit-reset" c reset Hc Hc').
    destruct ep; [congruence |]. cbn [truthyStr]. now rewrite Hpe.
  - rewrite epGet_epSet. now rewrite String.eqb_refl.
  - intros other Ho. rewrite epGet_epSet.
    destruct (String.eqb_spec ep other); congruence.
Qed.

Lemma updateFromHeadersFor_endpoint_witness :
  exists pe',
    RateLimitTracker.updateFromHeadersFor sampleRateLimitHeaders
      (Some "/users") (Some sampleRateLimitState)
    = Some (mkRateLimitState 2 60000 100 (Some pe')) /\
    epGet pe' "/users" = Some (mkEndpointState 7 90000 50).
Proof.
  destruct (@updateFromHeadersFor_endpoint sampleRateLimitHeaders
              "7" "50" "90" 7 50 90 "/users" sampleRateLimitState
              [("/users", mkEndpointState 1 30000 10);
               ("/orders", mkEndpointState 5 30000 10)]
              eq_refl eq_refl eq_refl eq_refl eq_refl eq_refl)
    as (pe' & H1 & H2 & _); try reflexivity; try discriminate.
  exists pe'. split; [exact H1 | exact H2].
Defined.

(** X9. When one of the three rate-limit headers is missing, empty or
    does not parse as an integer, an update changes nothing, with or
    without endpoint. *)
Theorem updateFromHeaders_incomplete (hs : Headers) (name : string)
    (endpoint : option string) (tr : RateLimitTracker.t) :
  In name ["x-ratelimit-remaining"; "x-ratelimit-limit"; "x-ratelimit-reset"] ->
  match objGet hs name with
  | Some value => parseInt value = None
  | None => True
  end ->
  RateLimitTracker.updateFromHeadersFor hs endpoint tr = tr /\
  RateLimitTracker.updateFromHeaders hs tr = tr.
Proof.
  intros Hin Hbad.
  assert (Hnone : RateLimitTracker.parseHeader hs name = None).
  { apply parseHeader_absent.
    destruct Hin as [<- | [<- | [<- | []]]]; exact Hbad. }
  unfold RateLimitTracker.updateFromHeadersFor,
    RateLimitTracker.updateFromHeaders.
  destruct Hin as [<- | [<- | [<- | []]]]; rewrite Hnone;
    repeat match goal with
           | |- context [match RateLimitTracker.parseHeader ?h ?n with _ => _ end] =>
               destruct (RateLimitTracker.parseHeader h n)
           end; split; reflexivity.
Qed.

Lemma updateFromHeaders_incomplete_witness :
  RateLimitTracker.updateFromHeaders
    [("x-ratelimit-remaining", "7"); ("x-ratelimit-limit", "many");
     ("x-ratelimit-reset", "90")]
    (Some sampleRateLimitState)
  = Some sampleRateLimitState.
Proof.
  refine (proj2 (@updateFromHeaders_incomplete
                   [("x-ratelimit-remaining", "7");
                    ("x-ratelimit-limit", "many");
                    ("x-ratelimit-reset", "90")]
                   "x-ratelimit-limit" None (Some sampleRateLimitState) _ _)).
  - right. left. reflexivity.
  - reflexivity.
Defined.



(** ** Headers *)



Lemma lowerChar_idempotent (c : ascii) : lowerChar (lowerChar c) = lowerChar c.
Proof. destruct c as [[] [] [] [] [] [] [] []]; reflexivity. Qed.

Lemma toLowerCase_idempotent (s : string) :
  toLowerCase (toLowerCase s) = toLowerCase s.
Proof.
  induction s as [|c s IH]; simpl; [reflexivity |].
  now rewrite lowerChar_idempotent, IH.
Qed.

Lemma objSet_keys (o : Headers) (k v : string) :
  map fst (objSet o k v)
  = if existsb (String.eqb k) (map fst o) then map fst o
    else map fst o ++ [k].
Proof.
  induction o as [|[k0 v0] o IH]; simpl; [reflexivity |].
  rewrite (String.eqb_sym k k0).
  destruct (String.eqb_spec k0 k); simpl; [reflexivity |].
  rewrite IH. now destruct (existsb (String.eqb k) (map fst o)).
Qed.

(** X12. In the result of [parseHeaders] every key is in lower case and
    no key occurs twice; an absent argument gives the empty record. *)
Theorem parseHeaders_keys (h : option Headers) :
  Forall (fun k => toLowerCase k = k) (map fst (parseHeaders h)) /\
  NoDup (map fst (parseHeaders h)) /\
  parseHeaders None = [].
Proof.
  assert (H : forall entries acc,
             Forall (fun k => toLowerCase k = k) (map fst acc) ->
             NoDup (map fst acc) ->
             Forall (fun k => toLowerCase k = k)
               (map fst (fold_left
                           (fun a kv => objSet a (toLowerCase (fst kv)) (snd kv))
                           entries acc)) /\
             NoDup (map fst (fold_left
                               (fun a kv =>
                                  objSet a (toLowerCase (fst kv)) (snd kv))
                               entries acc))).
  { induction entries as [|[k0 v0] entries IH]; intros acc Hl Hn; simpl.
    - auto.
    - apply IH; rewrite objSet_keys;
        destruct (existsb (String.eqb (toLowerCase k0)) (map fst acc)) eqn:E;
        auto.
      + apply Forall_app. split; [exact Hl |].
        constructor; [apply toLowerCase_idempotent | constructor].
      + apply NoDup_app; [exact Hn | repeat constructor; intros [] | ].
        intros x Hx [<- | []].
        assert (existsb (String.eqb (toLowerCase k0)) (map fst acc) = true).
        { apply existsb_exists. exists (toLowerCase k0).
          split; [exact Hx | apply String.eqb_refl]. }
        congruence. }
  destruct h as [entries|]; simpl.
  - destruct (H entries [] (Forall_nil _) (NoDup_nil _)) as [H1 H2].
    auto.
  - repeat split; constructor.
Qed.

(** ** Response metadata *)

(** X13. An error carries response metadata exactly when one of its
    [response], [status] and [headers] properties is set: with none of the
    three, [extractResponseMetadata] gives nothing, even when [retryAfter]
    is set on the error. *)
Theorem extractResponseMetadata_none (parseDate : string -> option Z)
    (e : Error) (now : Z) :
  extractResponseMetadata parseDate e now = None <->
  Err.response e = None /\ Err.status e = None /\ Err.headers e = None.
Proof.
  unfold extractResponseMetadata, isErrorWithResponse.
  destruct (Err.response e) as [r|], (Err.status e) as [s|],
    (Err.headers e) as [h|]; simpl; split; intros H;
    try discriminate H; try (destruct H as (? & ? & ?); discriminate); auto.
Qed.

(** X14. For an error built by [createHttpError], the status of the
    extracted metadata is the one given and its Retry-After value comes
    from the retry-after header alone: the [retryAfter] field of the given
    metadata has no influence on what is extracted. *)
Theorem createHttpError_extracted (parseDate : string -> option Z)
    (message : string) (st : option Z) (hs : option Headers)
    (ra ra' : option number) (now : Z) :
  extractResponseMetadata parseDate
    (createHttpError message (mkResponseMetadata st hs ra)) now
  = extractResponseMetadata parseDate
      (createHttpError message (mkResponseMetadata st hs ra')) now /\
  exists m,
    extractResponseMetadata parseDate
      (createHttpError message (mkResponseMetadata st hs ra)) now = Some m /\
    status m = st /\
    (objGet (parseHeaders hs) "retry-after" = None -> retryAfter m = None).
Proof.
  unfold extractResponseMetadata, createHttpError, isErrorWithResponse.
  cbn [Err.response Err.status Err.headers status headers retryAfter negb].
  split; [reflexivity |].
  eexists. split; [reflexivity |]. cbn [status retryAfter].
  split; [reflexivity |].
  destruct hs as [entries|].
  - intros ->. reflexivity.
  - reflexivity.
Qed.

(** X15. A thrown value that is not an Error is wrapped in an Error whose
    message is its string form and which keeps the value; the wrapper has
    no response metadata, so the stock classifier never calls it permanent
    or rate-limited. *)
Theorem thrown_value_classified (parseDate : string -> option Z)
    (v : Value) (now : Z) :
  let e := caughtError (ThrownValue v) in
  Err.message e = toString v /\
  Err.originalValue e = Some v /\
  extractResponseMetadata parseDate e now = None /\
  (HttpFailureClassifier e (extractResponseMetadata parseDate e now) = Transient \/
   HttpFailureClassifier e (extractResponseMetadata parseDate e now) = Unknown).
Proof.
  intros e. repeat split.
  change (extractResponseMetadata parseDate e now) with (@None ResponseMetadata).
  unfold HttpFailureClassifier. cbn [statusIs].
  destruct (existsb _ transientPatterns); auto.
Qed.

(** ** The stock classifier *)

Ltac classifier_cases :=
  repeat match goal with
         | |- context [?x =? ?y] => destruct (Z.eqb_spec x y)
         | |- context [?x <=? ?y] => destruct (Z.leb_spec x y)
         | |- context [?x <? ?y] => destruct (Z.ltb_spec x y)
         | |- context [Num.truthy ?n] => destruct (Num.truthy n) eqn:?
         | |- context [existsb ?f ?l] => destruct (existsb f l)
         end; cbn [negb andb].

(** X16. The stock classifier answers Permanent exactly for a status in
    [400, 500) other than 429 without a Retry-After value (other than 0
    and NaN); an error without response metadata is never permanent. *)
Theorem classifier_permanent_iff (e : Error) (r : option ResponseMetadata) :
  HttpFailureClassifier e r = Permanent <->
  exists m s, r = Some m /\ status m = Some s /\
              400 <= s < 500 /\ s <> 429 /\ noRetryAfter m.
Proof.
  unfold HttpFailureClassifier, statusIs, noRetryAfter.
  destruct r as [[st hs ra]|]; cbn [status retryAfter].
  - destruct st as [s|], ra as [n|]; classifier_cases;
      split; intros Hyp; try discriminate Hyp;
        try (destruct Hyp as (m & s' & Hm & Hs & Hr & H9 & Hra);
             injection Hm as <-; cbn [status retryAfter] in *;
             try discriminate Hs; try injection Hs as <-;
             try congruence; try lia; fail);
        eexists; eexists; repeat split; cbn [status retryAfter];
          try reflexivity; try lia; auto.
  - classifier_cases; split; intros Hyp; try discriminate Hyp;
      destruct Hyp as (m & s' & Hm & _); discriminate Hm.
Qed.

(** X17. The stock classifier answers RateLimit exactly for status 429 or
    a Retry-After value other than 0 and NaN, whatever the status
    otherwise is. *)
Theorem classifier_rateLimit_iff (e : Error) (r : option ResponseMetadata) :
  HttpFailureClassifier e r = RateLimit <->
  exists m, r = Some m /\
            (status m = Some 429 \/
             exists n, retryAfter m = Some n /\ Num.truthy n = true).
Proof.
  unfold HttpFailureClassifier, statusIs.
  destruct r as [[st hs ra]|]; cbn [status retryAfter].
  - destruct st as [s|], ra as [n|]; classifier_cases;
      split; intros Hyp; try discriminate Hyp;
        try (destruct Hyp as (m & Hm & [Hs | (n' & Hn & Ht)]);
             injection Hm as <-; cbn [status retryAfter] in *;
             try discriminate; try congruence; fail);
        eexists; split; try reflexivity; cbn [status retryAfter];
          try (left; congruence); right; eauto.
  - classifier_cases; split; intros Hyp; try discriminate Hyp;
      destruct Hyp as (m & Hm & _); discriminate Hm.
Qed.

(** ** The stock policies *)

Lemma Qle_bool_false (x y : Q) : Qle_bool x y = false <-> (y < x)%Q.
Proof.
  split; intros H.
  - apply Qnot_le_lt. intros Hle. apply Qle_bool_iff in Hle. congruence.
  - destruct (Qle_bool x y) eqn:E; [| reflexivity].
    apply Qle_bool_iff in E. exfalso. eapply Qlt_not_le; eauto.
Qed.

(** X18. The constructor of the stock policies accepts its parameters
    exactly when all three are finite, the base delay is not negative, the
    maximum is at least the base and the multiplier is positive; otherwise
    it throws a configuration error. *)
Theorem validatePolicyParams_iff (baseDelayMs maxDelayMs multiplier : number) :
  validatePolicyParams baseDelayMs maxDelayMs multiplier = None <->
  exists b m mu,
    baseDelayMs = Fin b /\ maxDelayMs = Fin m /\ multiplier = Fin mu /\
    (0 <= b)%Q /\ (b <= m)%Q /\ (0 < mu)%Q.
Proof.
  unfold validatePolicyParams, ofZ.
  split.
  - destruct baseDelayMs as [b| | |]; cbn [Num.isFinite negb orb Num.lt];
      try discriminate.
    destruct (Qle_bool (inject_Z 0) b) eqn:Hb; cbn [negb]; [| discriminate].
    destruct maxDelayMs as [m| | |]; cbn [Num.isFinite negb orb Num.lt];
      try discriminate.
    destruct (Qle_bool b m) eqn:Hm; cbn [negb]; [| discriminate].
    destruct multiplier as [mu| | |]; cbn [Num.isFinite negb orb Num.le];
      try discriminate.
    destruct (Qle_bool mu (inject_Z 0)) eqn:Hmu; [discriminate |].
    intros _. exists b, m, mu.
    apply Qle_bool_iff in Hb, Hm. apply Qle_bool_false in Hmu.
    repeat split; auto.
  - intros (b & m & mu & -> & -> & -> & Hb & Hm & Hmu).
    cbn [Num.isFinite negb orb Num.lt Num.le].
    apply Qle_bool_iff in Hb, Hm. apply Qle_bool_false in Hmu.
    change (inject_Z 0) with 0%Q. now rewrite Hb, Hm, Hmu.
Qed.




(** ** Validation *)

(** X20. [validateAndClampDelay] keeps null, and turns every number into a
    whole number of milliseconds in [0, 300000]; applying it a second time
    changes nothing. *)
Theorem validateAndClampDelay_whole (d : number) :
  validateAndClampDelay None = None /\
  exists k,
    validateAndClampDelay (Some d) = Some (ofZ k) /\
    0 <= k <= 300000 /\
    validateAndClampDelay (validateAndClampDelay (Some d))
    = validateAndClampDelay (Some d).
Proof.
  split; [reflexivity |].
  assert (H : exists k, validateAndClampDelay (Some d) = Some (ofZ k) /\
                        0 <= k <= 300000).
  { unfold validateAndClampDelay.
    destruct d as [x| | |]; cbn [Num.isFinite negb orb];
      try (exists 0; split; [reflexivity | lia]).
    unfold MIN_DELAY_MS, ofZ, Num.lt.
    destruct (Qle_bool (inject_Z 0) x) eqn:Hx; cbn [negb];
      [| exists 0; split; [reflexivity | lia]].
    apply Qle_bool_iff in Hx.
    assert (Hfloor : 0 <= Qfloor x).
    { rewrite <- (Qfloor_Z 0). now apply Qfloor_resp_le. }
    unfold Num.floor, Num.min, MAX_REASONABLE_DELAY_MS, ofZ, Num.le.
    destruct (Qle_bool (inject_Z (Qfloor x)) (inject_Z 300000)) eqn:Hc.
    - apply Qle_bool_iff in Hc. rewrite <- Zle_Qle in Hc.
      exists (Qfloor x). split; [reflexivity | lia].
    - exists 300000. split; [reflexivity | lia]. }
  destruct H as (k & Hk & Hr). exists k.
  split; [exact Hk |]. split; [exact Hr |].
  rewrite Hk, clamp_integer by lia. now rewrite Z.min_l by lia.
Qed.

(** ** Retry-After values *)

Lemma allDigits_digitPrefix (s : string) : allDigits (digitPrefix s) = true.
Proof.
  induction s as [|c rest IH]; [reflexivity |]. simpl.
  destruct (isDigit c) eqn:Hc; [| reflexivity]. simpl. now rewrite Hc, IH.
Qed.

Lemma readDigits_digitPrefix (s : string) (acc : option Z) :
  readDigits s acc = readDigits (digitPrefix s) acc.
Proof.
  revert acc. induction s as [|c rest IH]; intros acc; [reflexivity |].
  simpl. unfold isDigit.
  destruct (digitOf c) as [d|] eqn:Hd; simpl; [| reflexivity].
  rewrite Hd. apply IH.
Qed.

(** X21. A Retry-After header that begins with a digit is read as that
    many seconds, from its leading digits alone: what follows them is
    ignored and neither the date parser nor the clock is consulted, so a
    date written with a leading year is taken for a number of seconds. *)
Theorem parseRetryAfter_leading_digit (parseDate : string -> option Z)
    (now : Z) (c : ascii) (rest : string) :
  isDigit c = true ->
  parseRetryAfter parseDate (Some (String c rest)) now
  = Some (ofZ (decimalValue (digitPrefix (String c rest)))).
Proof.
  intros Hc. unfold parseRetryAfter.
  assert (Hint : parseInt (String c rest)
                 = Some (decimalValue (digitPrefix (String c rest)))).
  { pose proof Hc as Hd. unfold isDigit in Hd.
    destruct (digitOf c) as [d|] eqn:Hdc; [| discriminate].
    apply digit_not_space_or_sign in Hdc as (Hw & Hminus & Hplus & _).
    unfold parseInt. simpl skipWhiteSpace. rewrite Hw.
    assert (Hbody : forall k : string -> option Z,
               match String c rest with
               | String "-"%char r => option_map Z.opp (readDigits r None)
               | String "+"%char r => readDigits r None
               | body => k body
               end = k (String c rest)).
    { intros k.
      destruct c as [[] [] [] [] [] [] [] []]; try reflexivity; congruence. }
    etransitivity; [apply (Hbody (fun body => readDigits body None)) |].
    rewrite readDigits_digitPrefix.
    rewrite readDigits_allDigits by apply allDigits_digitPrefix.
    simpl digitPrefix. rewrite Hc. reflexivity. }
  now rewrite Hint.
Qed.

Lemma parseRetryAfter_leading_digit_witness :
  isoDateParser isoDate = Some 1445412480000 /\
  parseRetryAfter isoDateParser (Some isoDate) 1445412420000
  = Some (ofZ 2015).
Proof.
  split; [reflexivity |].
  exact (@parseRetryAfter_leading_digit isoDateParser 1445412420000
           "2"%char "015-10-21T07:28:00Z" eq_refl).
Defined.

Lemma retryAfterDelay_negative (n : Z) (rnd : Q) :
  n < 0 -> (0 <= rnd)%Q ->
  exists x, retryAfterDelay (ofZ n) rnd = Fin x /\ (x < 0)%Q.
Proof.
  intros Hn Hr. unfold retryAfterDelay, ofZ. cbn [Num.mul Num.add Num.floor].
  eexists. split; [reflexivity |].
  set (base := (inject_Z n * inject_Z 1000)%Q).
  assert (Hbase : (base <= inject_Z (-1000))%Q).
  { subst base. rewrite <- inject_Z_mult. rewrite <- Zle_Qle. lia. }
  assert (Hj : (base * RATE_LIMIT_JITTER_FACTOR * rnd <= 0)%Q).
  { assert (H0 : (0 <= (- base) * RATE_LIMIT_JITTER_FACTOR * rnd)%Q).
    { apply Qmult_le_0_compat; [| exact Hr].
      apply Qmult_le_0_compat; [| discriminate].
      change (inject_Z (-1000)) with (-1000 # 1)%Q in Hbase. lra. }
    assert (E : ((- base) * RATE_LIMIT_JITTER_FACTOR * rnd
                 == - (base * RATE_LIMIT_JITTER_FACTOR * rnd))%Q) by ring.
    rewrite E in H0. lra. }
  eapply Qle_lt_trans; [apply Qfloor_le |].
  change (inject_Z (-1000)) with (-1000 # 1)%Q in Hbase. lra.
Qed.

(** X22. A negative Retry-After value of a rate-limit failure gives a
    delay of 0, whatever the policy answered: the engine retries at once. *)
Theorem attemptDelay_negative_retryAfter (st : option Z) (hs : option Headers)
    (n : Z) (p : option number) (rnd : Q) :
  n < 0 -> (0 <= rnd)%Q ->
  attemptDelay RateLimit (Some (mkResponseMetadata st hs (Some (ofZ n)))) p rnd
  = Some (ofZ 0).
Proof.
  intros Hn Hr.
  rewrite attemptDelay_override by (apply truthy_ofZ; lia).
  destruct (@retryAfterDelay_negative n rnd Hn Hr) as (x & -> & Hx).
  unfold validateAndClampDelay, MIN_DELAY_MS, ofZ.
  cbn [Num.isFinite negb orb Num.lt].
  assert (Hc : Qle_bool (inject_Z 0) x = false).
  { apply Qle_bool_false. exact Hx. }
  now rewrite Hc.
Qed.

Lemma attemptDelay_negative_retryAfter_witness :
  attemptDelay RateLimit
    (Some (mkResponseMetadata (Some 429) None (Some (ofZ (-5))))) None (1 # 2)
  = Some (ofZ 0).
Proof.
  apply (@attemptDelay_negative_retryAfter (Some 429) None (-5) None (1 # 2)).
  - reflexivity.
  - discriminate.
Defined.

(** ** Runs: what is thrown and returned *)

Lemma canExecute_refuses (now : Z) (c : CircuitBreaker.t) :
  fst (CircuitBreaker.canExecute now c) = false ->
  CircuitBreaker.canExecute now c = (false, c) /\
  CircuitBreaker.state c = Open.
Proof.
  unfold CircuitBreaker.canExecute.
  destruct (CircuitBreaker.state c); try discriminate.
  destruct (_ && _)%bool; [discriminate | auto].
Qed.

Lemma performPreChecks_refusal (attempt : Z) (signal : Signal)
    (cb : option CircuitBreaker.t) (tr : option RateLimitTracker.t) (now : Z)
    (a : RetryAttempt) :
  PreCheck.shouldProceed (fst (performPreChecks attempt signal cb tr now))
  = false ->
  PreCheck.attemptRecord (fst (performPreChecks attempt signal cb tr now))
  = Some a ->
  error a = Some RetryCancelledError \/
  error a = Some (newError "Circuit breaker is open").
Proof.
  unfold performPreChecks.
  destruct (aborted signal now).
  - simpl. intros _ H. injection H as <-. now left.
  - destruct cb as [c|].
    + destruct (CircuitBreaker.canExecute now c) as [ok c'] eqn:Hcan.
      destruct ok.
      * destruct tr as [t|]; [destruct (RateLimitTracker.isRateLimited now t) |];
          simpl; discriminate.
      * assert (Hf : fst (CircuitBreaker.canExecute now c) = false)
          by now rewrite Hcan.
        destruct (canExecute_refuses now c Hf) as [Heq Hopen].
        rewrite Heq in Hcan. injection Hcan as <-.
        simpl. intros _ H. injection H as <-. right.
        unfold CircuitBreaker.getState. rewrite Hopen. reflexivity.
    + destruct tr as [t|]; [destruct (RateLimitTracker.isRateLimited now t) |];
        simpl; discriminate.
Qed.

Section RunOutcomes.

Variable random : nat -> Q.
Variable parseDate : string -> option Z.
Variable fn : nat -> Outcome * Z.
Variable maxAttempts : Z.
Variable policy : Policy.
Variable classifier : Classifier.
Variable combinedSignal : Signal.

Lemma afterAttempt_explained (attempt : Z) (a : AttemptResult.t) (st : Run.t)
    (pre : list AttemptResult.t) :
  Run.calls st = pre ++ [a] ->
  match afterAttempt maxAttempts combinedSignal attempt a st with
  | Next _ => True
  | Stop r => explained maxAttempts r
  end.
Proof.
  intros Hcalls. unfold afterAttempt.
  destruct (AttemptResult.success a &&
            negb (isUndefined (AttemptResult.result a)))%bool eqn:Hs.
  - unfold explained. run_simpl.
    apply andb_prop in Hs as [Hs1 Hs2]. apply negb_true_iff in Hs2.
    exists a, pre, (Run.attempts st). auto.
  - assert (Hno : AttemptResult.failureDomain a = Permanent \/
                  AttemptResult.delay a = None -> continued a = false).
    { intros [Hp | Hd]; unfold continued.
      - rewrite Hp. simpl. now rewrite andb_false_r.
      - rewrite Hd. now rewrite andb_false_r. }
    destruct (AttemptResult.failureDomain a) eqn:Hd;
      destruct (AttemptResult.delay a) as [d|] eqn:Hdl;
      try (unfold explained; run_simpl; exists a, pre;
           split; [exact Hcalls |]; split; [apply Hno; auto |];
           now destruct (AttemptResult.error a));
      assert (Hcont : continued a = true)
        by (apply (@continued_true a d); congruence);
      (destruct (attempt =? maxAttempts);
       [ unfold explained; run_simpl; exists a, pre; rewrite Hd; auto
       | destruct (sleep d combinedSignal _) as [[] tm];
         [ exact I | unfold explained; run_simpl; reflexivity ] ]).
Qed.

Lemma iteration_explained (attempt : Z) (st : Run.t) :
  match iteration random parseDate fn maxAttempts policy classifier
                  combinedSignal attempt st with
  | Next _ => True
  | Stop r => explained maxAttempts r
  end.
Proof.
  assert (Hgo : forall st0,
             match attemptStep random parseDate fn maxAttempts policy
                               classifier combinedSignal attempt st0 with
             | Next _ => True
             | Stop r => explained maxAttempts r
             end).
  { intros st0. unfold attemptStep.
    destruct (fn (Run.invocations st0)) as [outcome' duration].
    destruct (executeAttempt _ _ _ _ _ _ _ _ _ _) as [[a cb] tr].
    apply (@afterAttempt_explained attempt a _ (Run.calls st0)).
    reflexivity. }
  unfold iteration.
  pose proof (@performPreChecks_refusal attempt combinedSignal
                (Run.circuitBreaker st) (Run.rateLimitTracker st)
                (Run.now st)) as Hpre.
  destruct (performPreChecks _ _ _ _ _) as [[sp rec dl] cb].
  cbn [PreCheck.shouldProceed PreCheck.attemptRecord PreCheck.delay fst] in *.
  destruct sp, rec as [a|], dl as [d|];
    try apply Hgo;
    try (unfold explained; run_simpl;
         destruct (Hpre a eq_refl eq_refl) as [-> | ->]; auto; fail);
    destruct (Num.truthy d && Num.gt d (ofZ 0))%bool;
    try apply Hgo;
    destruct (sleep d combinedSignal _) as [[] tm];
    try exact I; unfold explained; run_simpl; reflexivity.
Qed.

Lemma retryLoop_explained (remaining : nat) (attempt : Z) (st : Run.t) :
  explained maxAttempts
    (retryLoop random parseDate fn maxAttempts policy classifier
               combinedSignal remaining attempt st).
Proof.
  revert attempt st.
  induction remaining as [|remaining IH]; intros attempt st.
  - reflexivity.
  - simpl. pose proof (iteration_explained attempt st) as Hit.
    destruct (iteration _ _ _ _ _ _ _ _ _) as [st' | r]; [apply IH | exact Hit].
Qed.

End RunOutcomes.

Lemma retry_explained (random : nat -> Q) (parseDate : string -> option Z)
    (params : RetryParams.t) (start : Z) :
  explained (Num.toMs (effectiveMaxAttempts params))
            (retry random parseDate params start).
Proof.
  unfold retry.
  destruct (validateRetryOptions _ _) as [rejection|] eqn:Hv.
  - unfold explained. cbn [exit outcome].
    unfold validateRetryOptions in Hv.
    repeat match type of Hv with
           | context [if ?c then _ else _] => destruct c
           | context [match RetryParams.timeout params with _ => _ end] =>
               destruct (RetryParams.timeout params)
           end; try discriminate Hv; injection Hv as <-; eauto.
  - apply retryLoop_explained.
Qed.

(** X23. When [retry] returns, the value is what the last invocation of
    the operation resolved with and is not undefined; the history returned
    is the whole history of the run, its last record is the success record
    of that invocation (no error, delay 0), and the metrics are those of
    that history. *)
Theorem retry_returns_value (random : nat -> Q)
    (parseDate : string -> option Z) (params : RetryParams.t) (start : Z)
    (res : RetryResult) :
  let r := retry random parseDate params start in
  outcome r = inl res ->
  exists k hist record,
    Run.invocations (final r) = S k /\
    fst (RetryParams.fn params k) = Resolved (value res) /\
    value res <> VUndefined /\
    resultAttempts res = Run.attempts (final r) /\
    Run.attempts (final r) = hist ++ [record] /\
    result record = value res /\ error record = None /\
    delay record = ofZ 0 /\
    metrics res = computeMetrics (Run.attempts (final r)) true.
Proof.
  intros r Hout. subst r.
  pose proof (retry_explained random parseDate params start) as Hex.
  destruct (retry_settled random parseDate params start) as [(Hlog & _) _].
  unfold explained in Hex.
  destruct (exit (retry random parseDate params start));
    try (destruct Hex as (? & ? & Hex); congruence);
    try (destruct Hex as (? & ? & ? & ? & Hex); congruence);
    try (destruct Hex as [Hex | Hex]; congruence);
    try congruence.
  destruct Hex as (a & pre & hist & Hcalls & Hs & Hu & Hatt & Ho).
  rewrite Ho in Hout. injection Hout as <-.
  assert (Hnth : nth_error
                   (Run.calls (final (retry random parseDate params start)))
                   (List.length pre) = Some a).
  { rewrite Hcalls, nth_error_app2, Nat.sub_diag by lia. reflexivity. }
  destruct (Hlog _ _ Hnth) as (attempt & cb & tr & now & Ha).
  exists (List.length pre), hist, (AttemptResult.attemptRecord a).
  destruct (fst (RetryParams.fn params (List.length pre))) as [v | t].
  - subst a. cbn [buildSuccessResult value resultAttempts metrics].
    unfold Run.invocations. rewrite Hcalls, length_app. simpl.
    repeat split; auto; try lia.
    intros Hv. cbn in Hu. rewrite Hv in Hu. discriminate Hu.
  - exfalso.
    destruct (executeAttempt_rejected random parseDate
                (effectiveClassifier params) (effectivePolicy params)
                t (List.length pre) attempt cb tr now) as (Hf & _).
    rewrite <- Ha in Hf. congruence.
Qed.

Lemma retry_returns_value_witness :
  exists k,
    Run.invocations (final (retry zeroDraws noDates failsTwice 0)) = S k /\
    fst (RetryParams.fn failsTwice k) = Resolved (VStr "done").
Proof.
  destruct (outcome (retry zeroDraws noDates failsTwice 0)) as [res | rej]
    eqn:Hout; [| vm_compute in Hout; discriminate Hout].
  destruct (@retry_returns_value zeroDraws noDates failsTwice 0 res Hout)
    as (k & hist & record & Hk & Hfn & _).
  exists k. split; [exact Hk |].
  assert (Hv : value res = VStr "done").
  { vm_compute in Hout. injection Hout as <-. reflexivity. }
  rewrite Hfn, Hv. reflexivity.
Defined.





(** ** Runs: events *)

Lemma reportsLatest_app (l extra : list RetryAttempt) (ev : RetryEvent) :
  reportsLatest l ev -> reportsLatest (l ++ extra) ev.
Proof.
  intros [H1 Hn]. split; [exact H1 |].
  rewrite nth_error_app1; [exact Hn |].
  apply nth_error_Some. congruence.
Qed.

Lemma reportsLatest_last (l : list RetryAttempt) (a : RetryAttempt)
    (ty : EventType) (e : option number) (il : bool) :
  reportsLatest (l ++ [a]) (mkRetryEvent ty a (List.length (l ++ [a])) e il).
Proof.
  split; cbn [totalAttempts evAttempt]; rewrite length_app; simpl.
  - lia.
  - rewrite nth_error_app2 by lia.
    replace (List.length l + 1 - 1 - List.length l)%nat with 0%nat by lia.
    reflexivity.
Qed.

Lemma Forall_reportsLatest_app (l extra : list RetryAttempt)
    (evs : list RetryEvent) :
  Forall (reportsLatest l) evs -> Forall (reportsLatest (l ++ extra)) evs.
Proof.
  intros H. eapply Forall_impl; [| exact H].
  intros ev. apply reportsLatest_app.
Qed.

Lemma reported_closing (r : RunResult) (evs : list RetryEvent)
    (y : RetryEvent) :
  Run.events (final r) = evs ++ [y] ->
  Forall (fun ev => type ev = EvAttempt) evs ->
  [type y] = closingEvent (exit r) ->
  Forall (reportsLatest (Run.attempts (final r))) (Run.events (final r)) ->
  reported r.
Proof.
  intros He Ha Hc Hr. split; [exact Hr |].
  exists evs, [y]. auto.
Qed.

Lemma reported_open (r : RunResult) :
  Forall (fun ev => type ev = EvAttempt) (Run.events (final r)) ->
  [] = closingEvent (exit r) ->
  Forall (reportsLatest (Run.attempts (final r))) (Run.events (final r)) ->
  reported r.
Proof.
  intros Ha Hc Hr. split; [exact Hr |].
  exists (Run.events (final r)), []. rewrite app_nil_r. auto.
Qed.

Ltac events_tac :=
  run_simpl;
  repeat match goal with
         | |- Forall _ (_ ++ _) => apply Forall_app; split
         | |- Forall _ [_] => constructor; [| constructor]
         | |- reportsLatest (_ ++ [?a]) (mkRetryEvent _ ?a _ _ _) =>
             apply reportsLatest_last
         | |- reportsLatest ((?l ++ [?a]) ++ _) (mkRetryEvent _ ?a _ _ _) =>
             apply reportsLatest_app, reportsLatest_last
         | |- Forall (reportsLatest ((?l ++ _) ++ _)) _ =>
             apply Forall_reportsLatest_app
         | |- Forall (reportsLatest (?l ++ _)) _ =>
             apply Forall_reportsLatest_app
         end;
  auto.

Section RunEvents.

Variable random : nat -> Q.
Variable parseDate : string -> option Z.
Variable fn : nat -> Outcome * Z.
Variable maxAttempts : Z.
Variable policy : Policy.
Variable classifier : Classifier.
Variable combinedSignal : Signal.

Lemma afterAttempt_reported (attempt : Z) (a : AttemptResult.t) (st : Run.t) :
  quiet st ->
  match afterAttempt maxAttempts combinedSignal attempt a st with
  | Next st' => quiet st'
  | Stop r => reported r
  end.
Proof.
  intros [Hty Hrep]. unfold afterAttempt.
  destruct (AttemptResult.success a &&
            negb (isUndefined (AttemptResult.result a)))%bool.
  - eapply reported_closing; run_simpl;
      [reflexivity | exact Hty | reflexivity | events_tac].
  - destruct (AttemptResult.failureDomain a);
      destruct (AttemptResult.delay a) as [d|];
      try (eapply reported_closing; run_simpl;
           [reflexivity | events_tac | reflexivity | events_tac]; fail);
      (destruct (attempt =? maxAttempts);
       [ eapply reported_closing; run_simpl;
         [reflexivity | events_tac | reflexivity | events_tac]
       | destruct (sleep d combinedSignal _) as [[] tm];
         [ split; events_tac
         | eapply reported_closing; run_simpl;
           [reflexivity | events_tac | reflexivity | events_tac] ] ]).
Qed.

Lemma iteration_reported (attempt : Z) (st : Run.t) :
  quiet st ->
  match iteration random parseDate fn maxAttempts policy classifier
                  combinedSignal attempt st with
  | Next st' => quiet st'
  | Stop r => reported r
  end.
Proof.
  intros Hq.
  assert (Hgo : forall st0,
             Run.events st0 = Run.events st ->
             Run.attempts st0 = Run.attempts st ->
             match attemptStep random parseDate fn maxAttempts policy
                               classifier combinedSignal attempt st0 with
             | Next st' => quiet st'
             | Stop r => reported r
             end).
  { intros st0 He Ha. unfold attemptStep.
    destruct (fn (Run.invocations st0)) as [outcome' duration].
    destruct (executeAttempt _ _ _ _ _ _ _ _ _ _) as [[a cb] tr].
    apply afterAttempt_reported. unfold quiet. run_simpl.
    now rewrite He, Ha. }
  destruct Hq as [Hty Hrep].
  unfold iteration.
  pose proof (@performPreChecks_refusal attempt combinedSignal
                (Run.circuitBreaker st) (Run.rateLimitTracker st)
                (Run.now st)) as Hpre.
  destruct (performPreChecks _ _ _ _ _) as [[sp rec dl] cb].
  cbn [PreCheck.shouldProceed PreCheck.attemptRecord PreCheck.delay fst] in *.
  destruct sp, rec as [a|], dl as [d|];
    try (apply Hgo; reflexivity);
    try (assert (Herr : exists e, error a = Some e)
           by (destruct (Hpre a eq_refl eq_refl) as [-> | ->]; eauto);
         destruct Herr as [e Herr]; rewrite Herr;
         eapply reported_closing; run_simpl;
         [reflexivity | exact Hty | reflexivity | events_tac]; fail);
    destruct (Num.truthy d && Num.gt d (ofZ 0))%bool;
    try (apply Hgo; reflexivity);
    destruct (sleep d combinedSignal _) as [[] tm];
    [ split; events_tac
    | apply reported_open; run_simpl; [events_tac | reflexivity | events_tac] ].
Qed.

Lemma retryLoop_reported (remaining : nat) (attempt : Z) (st : Run.t) :
  quiet st ->
  reported (retryLoop random parseDate fn maxAttempts policy classifier
                      combinedSignal remaining attempt st).
Proof.
  revert attempt st.
  induction remaining as [|remaining IH]; intros attempt st Hq.
  - destruct Hq as [Hty Hrep]. apply reported_open; auto.
  - simpl. pose proof (@iteration_reported attempt st Hq) as Hit.
    destruct (iteration _ _ _ _ _ _ _ _ _) as [st' | r];
      [now apply IH | exact Hit].
Qed.

End RunEvents.

(** X26. The events of a run are [attempt] events followed by at most one
    closing event, which is last: [success] when the run returns,
    [cancelled] when the sleep between attempts is cancelled, [failure]
    when the run ends on a permanent or declined failure, on exhaustion or
    on a refused pre-check (a cancellation seen by the pre-check
    included); a cancelled rate-limit wait, the statement after the loop
    and a configuration error emit no closing event.  Every event carries
    a record of the final history, at the position its attempt count
    gives. *)
Theorem retry_events (random : nat -> Q) (parseDate : string -> option Z)
    (params : RetryParams.t) (start : Z) :
  let r := retry random parseDate params start in
  (exists evs tail,
      Run.events (final r) = evs ++ tail /\
      Forall (fun ev => type ev = EvAttempt) evs /\
      map type tail = closingEvent (exit r)) /\
  Forall (fun ev =>
            (1 <= totalAttempts ev)%nat /\
            nth_error (Run.attempts (final r)) (totalAttempts ev - 1)
            = Some (evAttempt ev))
         (Run.events (final r)).
Proof.
  intros r. subst r.
  assert (H : reported (retry random parseDate params start)).
  { unfold retry. destruct (validateRetryOptions _ _) as [rejection|].
    - apply reported_open; run_simpl; constructor.
    - apply retryLoop_reported. split; constructor. }
  destruct H as [Hrep Hev]. split; [exact Hev | exact Hrep].
Qed.

(** ** Runs without a rate-limit tracker *)

Lemma validated_maxAttempts (m : number) (t : option number) :
  validateRetryOptions (Some m) t = None -> 1 <= Num.toMs m.
Proof.
  unfold validateRetryOptions. intros H.
  destruct (negb (Num.isInteger m) || Num.lt m (ofZ 1))%bool eqn:Hc;
    [discriminate H |].
  apply orb_false_iff in Hc as [Hi Hl].
  destruct m as [q| | |]; try discriminate Hi.
  unfold Num.lt, ofZ in Hl. apply negb_false_iff in Hl.
  apply Qle_bool_iff in Hl.
  cbn [Num.toMs]. rewrite <- (Qfloor_Z 1). now apply Qfloor_resp_le.
Qed.

Section RunWithoutTracker.

Variable random : nat -> Q.
Variable parseDate : string -> option Z.
Variable fn : nat -> Outcome * Z.
Variable maxAttempts : Z.
Variable policy : Policy.
Variable classifier : Classifier.
Variable combinedSignal : Signal.

Lemma executeAttempt_no_tracker (settled : Outcome) (k : nat) (attempt : Z)
    (cb : option CircuitBreaker.t) (now : Z) :
  snd (executeAttempt random parseDate classifier policy settled k attempt
                      cb None now) = None.
Proof.
  unfold executeAttempt. destruct settled as [v|t]; [reflexivity |].
  destruct (classifier _ _); try reflexivity.
  destruct (extractResponseMetadata _ _ _) as [m|]; [| reflexivity].
  destruct (headers m); reflexivity.
Qed.

Lemma afterAttempt_last (attempt : Z) (a : AttemptResult.t) (st : Run.t) :
  match afterAttempt maxAttempts combinedSignal attempt a st with
  | Next st' => attempt <> maxAttempts /\
                Run.rateLimitTracker st' = Run.rateLimitTracker st /\
                Run.waits st' = Run.waits st
  | Stop r => exit r <> ExitLoopEnd /\ Run.waits (final r) = Run.waits st
  end.
Proof.
  unfold afterAttempt.
  destruct (AttemptResult.success a &&
            negb (isUndefined (AttemptResult.result a)))%bool.
  - run_simpl. split; [discriminate | reflexivity].
  - destruct (AttemptResult.failureDomain a);
      destruct (AttemptResult.delay a) as [d|];
      try (run_simpl; split; [discriminate | reflexivity]);
      (destruct (attempt =? maxAttempts) eqn:Hlast;
       [ run_simpl; split; [discriminate | reflexivity]
       | apply Z.eqb_neq in Hlast;
         destruct (sleep d combinedSignal _) as [[] tm]; run_simpl;
         [ auto | split; [discriminate | reflexivity] ] ]).
Qed.

Lemma iteration_no_tracker (attempt : Z) (st : Run.t) :
  Run.rateLimitTracker st = None ->
  match iteration random parseDate fn maxAttempts policy classifier
                  combinedSignal attempt st with
  | Next st' => attempt <> maxAttempts /\
                Run.rateLimitTracker st' = None /\
                Run.waits st' = Run.waits st
  | Stop r => exit r <> ExitLoopEnd /\ Run.waits (final r) = Run.waits st
  end.
Proof.
  intros Htr.
  assert (Hgo : forall st0,
             Run.rateLimitTracker st0 = None ->
             Run.waits st0 = Run.waits st ->
             match attemptStep random parseDate fn maxAttempts policy
                               classifier combinedSignal attempt st0 with
             | Next st' => attempt <> maxAttempts /\
                           Run.rateLimitTracker st' = None /\
                           Run.waits st' = Run.waits st
             | Stop r => exit r <> ExitLoopEnd /\
                         Run.waits (final r) = Run.waits st
             end).
  { intros st0 Htr0 Hw0. unfold attemptStep.
    destruct (fn (Run.invocations st0)) as [outcome' duration].
    run_simpl. rewrite Htr0.
    match goal with
    | |- context [executeAttempt ?r ?p ?c ?po ?s ?k ?a ?cb None ?t] =>
        pose proof (@executeAttempt_no_tracker s k a cb t) as Hnone
    end.
    destruct (executeAttempt _ _ _ _ _ _ _ _ _ _) as [[a cb] tr].
    cbn [snd] in Hnone. subst tr.
    match goal with
    | |- match afterAttempt _ _ _ _ ?s with _ => _ end =>
        pose proof (@afterAttempt_last attempt a s) as Hlast
    end.
    destruct (afterAttempt _ _ _ _ _) as [st' | r]; run_simpl.
    - destruct Hlast as (H1 & H2 & H3). repeat split; congruence.
    - destruct Hlast as (H1 & H2). split; congruence. }
  unfold iteration, performPreChecks. rewrite Htr.
  destruct (aborted combinedSignal (Run.now st)).
  - run_simpl. cbn. split; [discriminate | reflexivity].
  - destruct (Run.circuitBreaker st) as [c|].
    + destruct (CircuitBreaker.canExecute (Run.now st) c) as [[] c'].
      * cbn. apply Hgo; [exact Htr | reflexivity].
      * cbn. split; [discriminate | reflexivity].
    + cbn. apply Hgo; [exact Htr | reflexivity].
Qed.

Lemma retryLoop_no_tracker (remaining : nat) (attempt : Z) (st : Run.t) :
  (1 <= remaining)%nat ->
  Z.of_nat remaining = maxAttempts - attempt + 1 ->
  Run.rateLimitTracker st = None ->
  let r := retryLoop random parseDate fn maxAttempts policy classifier
                     combinedSignal remaining attempt st in
  exit r <> ExitLoopEnd /\ Run.waits (final r) = Run.waits st.
Proof.
  revert attempt st.
  induction remaining as [|remaining IH]; intros attempt st Hpos Hrem Htr;
    [lia |].
  cbn [retryLoop].
  pose proof (@iteration_no_tracker attempt st Htr) as Hit.
  destruct (iteration _ _ _ _ _ _ _ _ _) as [st' | r]; [| exact Hit].
  destruct Hit as (Hne & Htr' & Hw).
  destruct (IH (attempt + 1) st') as [H1 H2]; try assumption; try lia.
  split; [exact H1 | congruence].
Qed.

End RunWithoutTracker.

(** X27. A run without rate-limit state never waits in a pre-check and
    never reaches the statement after the loop: its history has one record
    per invocation, plus the closing record of a refused pre-check or a
    cancelled sleep, and an exhaustion error it throws always carries the
    last error. *)
Theorem retry_without_tracker (random : nat -> Q)
    (parseDate : string -> option Z) (params : RetryParams.t) (start : Z) :
  RetryParams.rateLimitState params = None ->
  let r := retry random parseDate params start in
  exit r <> ExitLoopEnd /\
  Run.waits (final r) = 0%nat /\
  List.length (Run.attempts (final r))
  = (Run.invocations (final r) + closingRecords (exit r))%nat /\
  forall n domain, outcome r <> inr (ThrowExhausted n None domain).
Proof.
  intros Hrl r. subst r.
  assert (H : exit (retry random parseDate params start) <> ExitLoopEnd /\
              Run.waits (final (retry random parseDate params start)) = 0%nat).
  { unfold retry.
    destruct (validateRetryOptions _ _) as [rejection|] eqn:Hv.
    - run_simpl. split; [discriminate | reflexivity].
    - apply validated_maxAttempts in Hv.
      apply (@retryLoop_no_tracker random parseDate (RetryParams.fn params)
               (Num.toMs (effectiveMaxAttempts params))
               (effectivePolicy params) (effectiveClassifier params)
               (runSignal params start)
               (Z.to_nat (Num.toMs (effectiveMaxAttempts params))) 1
               (initialRun params start)); try lia.
      unfold initialRun. run_simpl. now rewrite Hrl. }
  destruct H as [Hexit Hwaits].
  destruct (retry_settled random parseDate params start)
    as [(Hlog & _ & Hlen) _].
  pose proof (retry_explained random parseDate params start) as Hex.
  split; [exact Hexit |]. split; [exact Hwaits |].
  split; [rewrite Hlen, Hwaits; lia |].
  intros n domain Hout. unfold explained in Hex.
  destruct (exit (retry random parseDate params start)).
  - destruct Hex as (? & ? & Hex). congruence.
  - destruct Hex as [Hex | Hex]; congruence.
  - congruence.
  - destruct Hex as (? & ? & ? & ? & ? & ? & ? & Hex). congruence.
  - destruct Hex as (? & ? & ? & ? & Hex). congruence.
  - destruct Hex as (a & pre & Hcalls & Hcont & Ho).
    rewrite Ho in Hout. injection Hout as _ Herr _.
    assert (Hnth : nth_error
                     (Run.calls (final (retry random parseDate params start)))
                     (List.length pre) = Some a).
    { rewrite Hcalls, nth_error_app2, Nat.sub_diag by lia. reflexivity. }
    destruct (Hlog _ _ Hnth) as (attempt & cb & tr & now & Ha).
    destruct (fst (RetryParams.fn params (List.length pre))) as [v | t].
    + rewrite Ha in Hcont. unfold continued in Hcont.
      cbn in Hcont. rewrite andb_false_r in Hcont. discriminate Hcont.
    + destruct (executeAttempt_rejected random parseDate
                  (effectiveClassifier params) (effectivePolicy params)
                  t (List.length pre) attempt cb tr now) as (_ & He & _).
      rewrite <- Ha in He. congruence.
  - congruence.
  - now apply Hexit.
Qed.

Lemma retry_without_tracker_witness :
  List.length (Run.attempts (final (retry zeroDraws noDates alwaysFails 0)))
  = (Run.invocations (final (retry zeroDraws noDates alwaysFails 0))
     + closingRecords (exit (retry zeroDraws noDates alwaysFails 0)))%nat.
Proof.
  destruct (@retry_without_tracker zeroDraws noDates alwaysFails 0 eq_refl)
    as (_ & _ & H & _).
  exact H.
Defined.

(** ** Runs cancelled before they start *)

Lemma aborted_combineSignals_l (t : Z) (other : Signal) (now : Z) :
  t <= now -> aborted (combineSignals (Some t) other) now = true.
Proof.
  intros H. destruct other as [y|]; cbn [combineSignals aborted];
    apply Z.leb_le; lia.
Qed.

(** X28. When the caller's signal has aborted by the time [retry] is
    called with accepted options, the operation is never invoked: the run
    throws the cancellation error, its history is the single record of the
    pre-check (attempt 1, domain unknown, delay 0), and the one event
    emitted has type [failure], not [cancelled], because that record
    carries the error. *)
Theorem retry_already_cancelled (random : nat -> Q)
    (parseDate : string -> option Z) (params : RetryParams.t) (start t : Z) :
  validateRetryOptions (Some (effectiveMaxAttempts params))
                       (RetryParams.timeout params) = None ->
  RetryParams.signal params = Some t ->
  t <= start ->
  let r := retry random parseDate params start in
  outcome r = inr (ThrowError RetryCancelledError) /\
  Run.invocations (final r) = 0%nat /\
  Run.attempts (final r)
  = [createRetryAttemptFailure 1 RetryCancelledError Unknown (ofZ 0) start] /\
  map type (Run.events (final r)) = [EvFailure].
Proof.
  intros Hv Hs Ht r. subst r. unfold retry. rewrite Hv.
  apply validated_maxAttempts in Hv.
  destruct (Z.to_nat (Num.toMs (effectiveMaxAttempts params)))
    as [|remaining] eqn:Hn; [lia |].
  cbn [retryLoop]. unfold iteration, performPreChecks.
  assert (Hab : aborted (runSignal params start)
                        (Run.now (initialRun params start)) = true).
  { unfold runSignal. rewrite Hs. now apply aborted_combineSignals_l. }
  rewrite Hab. cbn. repeat split; reflexivity.
Qed.

Lemma retry_already_cancelled_witness :
  outcome (retry zeroDraws noDates cancelledWhileSleeping 100)
  = inr (ThrowError RetryCancelledError) /\
  Run.invocations (final (retry zeroDraws noDates cancelledWhileSleeping 100))
  = 0%nat.
Proof.
  destruct (@retry_already_cancelled zeroDraws noDates cancelledWhileSleeping
              100 100 eq_refl eq_refl (Z.le_refl 100)) as (H1 & H2 & _).
  split; assumption.
Defined.

(** ** Runs of an operation that keeps failing *)



Section PersistentFailure.

Variable random : nat -> Q.
Variable parseDate : string -> option Z.
Variable fn : nat -> Outcome * Z.
Variable maxAttempts : Z.
Variable b m mu : Q.
Variable classifier : Classifier.

Hypothesis Hfail :
  forall i, exists thrown,
    fst (fn i) = Rejected thrown /\
    forall now,
      classifier (caughtError thrown)
                 (extractResponseMetadata parseDate (caughtError thrown) now)
      <> Permanent.



End PersistentFailure.


